(** * docker-logger, package [discovery]: the event notifier

    A shallow embedding of [app/discovery/events.go] and the properties of
    its name/group resolver, its inclusion policy, the snapshot emitter and
    the live listener.

    Go strings are byte strings and are modelled by [string]; a
    [map[string]string] is a [gmap string string] (a nil map reads like the
    empty one); [int64] values are [Z]; slices are lists. *)

From Stdlib Require Import ZArith List String Ascii Bool Lia.
From stdpp Require Import gmap strings list relations.
Import ListNotations.

Open Scope string_scope.

(** ** Go's [strings] package, as far as the file uses it *)

(** [strings.CutPrefix]: the rest of [s] behind [prefix], when [s] starts
    with it. *)
Fixpoint strings_CutPrefix (s prefix : string) {struct prefix} : option string :=
  match prefix with
  | EmptyString => Some s
  | String p prefix' =>
      match s with
      | String a s' => if Ascii.eqb a p then strings_CutPrefix s' prefix' else None
      | EmptyString => None
      end
  end.

(** [strings.TrimPrefix(s, prefix)]: [s] without the leading [prefix]; [s]
    itself when it does not start with [prefix]. *)
Definition strings_TrimPrefix (s prefix : string) : string :=
  match strings_CutPrefix s prefix with
  | Some rest => rest
  | None => s
  end.

(** [strings.Join(elems, sep)]. *)
Definition strings_Join (elems : list string) (sep : string) : string :=
  String.concat sep elems.

(** ** Go's [time.Unix] *)

Record time_Time : Type := mkTime {
  unixSec : Z;   (* seconds since the epoch *)
  unixNsec : Z   (* nanoseconds within the second, in [0, 1e9) *)
}.

(** [time.Unix(sec, nsec)]: a [nsec] outside [0, 999999999] is carried over
    into the seconds; Go's [/] on integers truncates toward zero
    ([Z.quot]). *)
Definition time_Unix (sec nsec : Z) : time_Time :=
  if ((nsec <? 0) || (1000000000 <=? nsec))%Z then
    let n := Z.quot nsec 1000000000 in
    let sec1 := (sec + n)%Z in
    let nsec1 := (nsec - n * 1000000000)%Z in
    if (nsec1 <? 0)%Z
    then mkTime (sec1 - 1) (nsec1 + 1000000000)
    else mkTime sec1 nsec1
  else mkTime sec nsec.

(** ** Go's [error] *)

(** Go's [error] values: one made by a collaborator, or one wrapped with a
    message by [errors.Wrap]. *)
Inductive error : Type :=
| errors_New (msg : string)
| errors_Wrap (cause : error) (msg : string).

(** ** Go's [regexp] package: a backtracking matcher

    The matcher implements the leftmost-first (Perl-like) semantics of
    [regexp.Regexp] for a fragment of the syntax that holds the two
    package-level patterns of [events.go]. It works on bytes where Go works
    on runes; for the two package-level patterns this gives the same
    submatches, since their literals and digits are ASCII bytes and a run
    of [.] takes every byte of every rune, the newline apart. *)

Module regexp.

(** Operators, named after [regexp/syntax]. *)
Inductive Regexp : Type :=
| OpEmptyMatch                           (* matches the empty string *)
| OpLiteral (c : ascii)                  (* a literal byte *)
| OpAnyCharNotNL                         (* [.] *)
| OpDigit                                (* [\d], the class [0-9] *)
| OpConcat (r1 r2 : Regexp)
| OpAlternate (r1 r2 : Regexp)           (* [r1|r2] *)
| OpStar (greedy : bool) (r : Regexp)    (* [r*] and [r*?] *)
| OpQuest (greedy : bool) (r : Regexp)   (* [r?] and [r??] *)
| OpCapture (idx : nat) (r : Regexp).    (* a capturing group *)

(** [r+] is [r] followed by [r*]. *)
Definition OpPlus (greedy : bool) (r : Regexp) : Regexp :=
  OpConcat r (OpStar greedy r).

(** The number of capturing groups. Groups are numbered from 1 in the order
    of their opening parentheses, so this is the greatest index. *)
Fixpoint NumSubexp (r : Regexp) : nat :=
  match r with
  | OpEmptyMatch | OpLiteral _ | OpAnyCharNotNL | OpDigit => 0
  | OpConcat r1 r2 | OpAlternate r1 r2 => Nat.max (NumSubexp r1) (NumSubexp r2)
  | OpStar _ r1 | OpQuest _ r1 => NumSubexp r1
  | OpCapture idx r1 => Nat.max idx (NumSubexp r1)
  end.

(** Submatches found so far, the most recent binding first. *)
Definition caps : Type := list (nat * string).

Fixpoint cap_lookup (i : nat) (cs : caps) : option string :=
  match cs with
  | [] => None
  | (j, v) :: cs' => if Nat.eqb i j then Some v else cap_lookup i cs'
  end.

(** What is left to match behind the current operator. *)
Definition cont : Type := string -> caps -> option caps.

Definition or_else {A : Type} (a b : option A) : option A :=
  match a with
  | Some x => Some x
  | None => b
  end.

Definition isNewline (a : ascii) : bool := Ascii.eqb a "010"%char.

Definition isDigit (a : ascii) : bool :=
  (48 <=? nat_of_ascii a)%nat && (nat_of_ascii a <=? 57)%nat.

(** The text between the start [s] of a group and the rest [s1] of the
    input behind it. *)
Definition consumed (s s1 : string) : string :=
  String.substring 0 (String.length s - String.length s1) s.

(** Iteration of the matcher [m]: the greedy star tries one more round
    before the continuation, the lazy one the continuation first. A round
    has to consume input, so [S (length s)] rounds of [fuel] are never
    used up. *)
Fixpoint star (m : string -> caps -> cont -> option caps) (greedy : bool)
    (fuel : nat) (s : string) (cs : caps) (k : cont) : option caps :=
  match fuel with
  | O => k s cs
  | S fuel' =>
      let again :=
        m s cs (fun s1 cs1 =>
                  if (String.length s1 <? String.length s)%nat
                  then star m greedy fuel' s1 cs1 k
                  else None) in
      if greedy then or_else again (k s cs) else or_else (k s cs) again
  end.

(** [backtrack r s cs k]: match [r] at the head of [s], then [k] on the
    rest; the first success in preference order wins. *)
Fixpoint backtrack (r : Regexp) (s : string) (cs : caps) (k : cont) : option caps :=
  match r with
  | OpEmptyMatch => k s cs
  | OpLiteral c =>
      match s with
      | String a s' => if Ascii.eqb a c then k s' cs else None
      | EmptyString => None
      end
  | OpAnyCharNotNL =>
      match s with
      | String a s' => if isNewline a then None else k s' cs
      | EmptyString => None
      end
  | OpDigit =>
      match s with
      | String a s' => if isDigit a then k s' cs else None
      | EmptyString => None
      end
  | OpConcat r1 r2 => backtrack r1 s cs (fun s1 cs1 => backtrack r2 s1 cs1 k)
  | OpAlternate r1 r2 => or_else (backtrack r1 s cs k) (backtrack r2 s cs k)
  | OpStar g r1 => star (backtrack r1) g (S (String.length s)) s cs k
  | OpQuest g r1 =>
      if g then or_else (backtrack r1 s cs k) (k s cs)
      else or_else (k s cs) (backtrack r1 s cs k)
  | OpCapture i r1 =>
      backtrack r1 s cs (fun s1 cs1 =>
        k s1 ((i, consumed s s1) :: cs1))
  end.

(** The leftmost match: the first start offset at which [r] matches. *)
Fixpoint leftmost (r : Regexp) (s : string) : option caps :=
  match backtrack r s [] (fun _ cs => Some cs) with
  | Some cs => Some cs
  | None =>
      match s with
      | EmptyString => None
      | String _ s' => leftmost r s'
      end
  end.

(** [re.FindStringSubmatch(s)]: nil when there is no match; otherwise the
    text of the leftmost match followed by the text of each capturing
    group (empty for a group that took no part). *)
Definition FindStringSubmatch (re : Regexp) (s : string) : list string :=
  match leftmost (OpCapture 0 re) s with
  | None => []
  | Some cs =>
      List.map (fun i => match cap_lookup i cs with Some v => v | None => "" end)
               (seq 0 (S (NumSubexp re)))
  end.

(** [re.MatchString(s)] *)
Definition MatchString (re : Regexp) (s : string) : bool :=
  match leftmost re s with
  | Some _ => true
  | None => false
  end.

(** *** Parsing a pattern

    [Compile] for the fragment: literal bytes, [.], the escapes [\d] and
    backslash-punctuation, the postfix operators [*], [+], [?] and their
    lazy forms, groups, the flag group [(?m)] and alternation. A pattern
    outside the fragment is refused. *)

Definition concat (r1 r2 : Regexp) : Regexp :=
  match r1, r2 with
  | OpEmptyMatch, _ => r2
  | _, OpEmptyMatch => r1
  | _, _ => OpConcat r1 r2
  end.

Definition alternate (branch : Regexp) (others : option Regexp) : Regexp :=
  match others with
  | Some r => OpAlternate branch r
  | None => branch
  end.

Definition isPunct (a : ascii) : bool :=
  let n := nat_of_ascii a in
  ((33 <=? n) && (n <=? 47) || (58 <=? n) && (n <=? 64)
   || (91 <=? n) && (n <=? 96) || (123 <=? n) && (n <=? 126))%nat.

(** The postfix operator behind an atom, if there is one. *)
Definition repeat (atom : Regexp) (s : string) : Regexp * string :=
  match s with
  | String "*" (String "?" s') => (OpStar false atom, s')
  | String "*" s' => (OpStar true atom, s')
  | String "+" (String "?" s') => (OpPlus false atom, s')
  | String "+" s' => (OpPlus true atom, s')
  | String "?" (String "?" s') => (OpQuest false atom, s')
  | String "?" s' => (OpQuest true atom, s')
  | _ => (atom, s)
  end.

(** [parse fuel s n]: the alternation at the head of [s], up to a closing
    parenthesis or the end: its first branch, the other branches, the rest
    of the input and the number of groups opened so far. *)
Fixpoint parse (fuel : nat) (s : string) (n : nat)
    : (Regexp * option Regexp * string * nat) + error :=
  match fuel with
  | O => inr (errors_New "expression too large")
  | S fuel' =>
      let item (atom : Regexp) (s1 : string) (n1 : nat) :=
        let (r, s2) := repeat atom s1 in
        match parse fuel' s2 n1 with
        | inl (branch, others, s3, n3) => inl (concat r branch, others, s3, n3)
        | inr err => inr err
        end in
      match s with
      | EmptyString => inl (OpEmptyMatch, None, s, n)
      | String ")" _ => inl (OpEmptyMatch, None, s, n)
      | String "|" s' =>
          match parse fuel' s' n with
          | inl (branch, others, s3, n3) =>
              inl (OpEmptyMatch, Some (alternate branch others), s3, n3)
          | inr err => inr err
          end
      | String "(" (String "?" (String "m" (String ")" s'))) => item OpEmptyMatch s' n
      | String "(" (String "?" _) => inr (errors_New "invalid or unsupported Perl syntax")
      | String "(" s' =>
          match parse fuel' s' (S n) with
          | inl (branch, others, String ")" s3, n3) =>
              item (OpCapture (S n) (alternate branch others)) s3 n3
          | inl _ => inr (errors_New "missing closing )")
          | inr err => inr err
          end
      | String "*" _ | String "+" _ | String "?" _ =>
          inr (errors_New "missing argument to repetition operator")
      | String "\" EmptyString => inr (errors_New "trailing backslash at end of expression")
      | String "\" (String "d" s') => item OpDigit s' n
      | String "\" (String c s') =>
          if isPunct c then item (OpLiteral c) s' n
          else inr (errors_New "invalid or unsupported escape sequence")
      | String "." s' => item OpAnyCharNotNL s' n
      | String "[" _ | String "{" _ | String "^" _ | String "$" _ =>
          inr (errors_New "unsupported syntax")
      | String c s' => item (OpLiteral c) s' n
      end
  end.

(** [regexp.Compile(expr)] *)
Definition Compile (expr : string) : Regexp + error :=
  match parse (S (String.length expr)) expr 0 with
  | inl (branch, others, EmptyString, _) => inl (alternate branch others)
  | inl _ => inr (errors_New "unexpected )")
  | inr err => inr err
  end.

End regexp.

Import regexp.

(** ** Package-level patterns *)

(** [reGroup]: a slash, group 1 holding a lazy run of [.], a slash. *)
Definition reGroup : Regexp :=
  OpConcat (OpLiteral "/")
    (OpConcat (OpCapture 1 (OpStar false OpAnyCharNotNL)) (OpLiteral "/")).

(** [reSwarm]: group 1 holding a greedy run of [.], a literal dot, group 2
    holding one or more digits, a literal dot, group 3 holding a greedy run
    of [.]. The pattern is compiled with the flag [m], which changes the
    meaning of the anchors only, and it has no anchor. *)
Definition reSwarm : Regexp :=
  OpConcat (OpCapture 1 (OpStar true OpAnyCharNotNL))
    (OpConcat (OpLiteral ".")
       (OpConcat (OpCapture 2 (OpPlus true OpDigit))
          (OpConcat (OpLiteral ".")
             (OpCapture 3 (OpStar true OpAnyCharNotNL))))).

(** ** Pure helpers of [events.go] *)

Fixpoint contains (e : string) (s : list string) : bool :=
  match s with
  | [] => false
  | a :: s' => if String.eqb a e then true else contains e s'
  end.

(** [r[i]] on a slice known to be long enough. *)
Definition index (r : list string) (i : nat) : string := nth i r "".

Definition buildContainerName (labels : gmap string string) (containerName : string) : string :=
  let result : list string := [] in
  let result :=
    let r := FindStringSubmatch reSwarm containerName in
    if (length r =? 4)%nat then
      let result := (result ++ [index r 1])%list in   (* service name *)
      let result := (result ++ [index r 2])%list in   (* replica number *)
      result
    else
      match labels !! "logger.container.name" with
      | Some labelName =>
          if negb (String.eqb labelName "") then (result ++ [labelName])%list else result
      | None => result
      end in
  if (0 <? length result)%nat then strings_Join result "-" else containerName.

Definition buildGroupName (labels : gmap string string) (defaultValue : string) : string :=
  match labels !! "logger.group.name" with
  | Some labelGroup =>
      if negb (String.eqb labelGroup "") then labelGroup else defaultValue
  | None => defaultValue
  end.

(** The method [group] does not read its receiver. *)
Definition group (image : string) : string :=
  let r := FindStringSubmatch reGroup image in
  if (length r =? 2)%nat then index r 1 else "".

(** ** Types of the collaborator ([go-dockerclient]) and of the package *)

Record docker_ListContainersOptions : Type := { All : bool }.

(** The fields of [docker.APIContainers] that the package reads. *)
Record docker_APIContainers : Type := {
  c_ID : string;
  c_Image : string;
  c_Created : Z;                  (* int64 *)
  c_Names : list string;
  c_Labels : gmap string string
}.

Record docker_APIActor : Type := {
  actor_ID : string;
  actor_Attributes : gmap string string
}.

(** The fields of [docker.APIEvents] that the package reads. *)
Record docker_APIEvents : Type := {
  ev_Type : string;
  ev_Status : string;
  ev_From : string;
  ev_Time : Z;                    (* int64 *)
  ev_TimeNano : Z;                (* int64 *)
  ev_Actor : docker_APIActor
}.

(** Event is simplified docker.APIEvents for containers only, exposed to
    caller. *)
Record Event : Type := {
  ContainerID : string;
  ContainerName : string;
  Group : string;  (* group is the "path" part of the image tag, i.e. for
                      umputun/system/logger:latest it will be "system" *)
  TS : time_Time;
  Status : bool
}.

(** The interface [DockerClient]. [ListContainers] answers a request with
    the containers or an error. [AddEventListener] registers the listener's
    channel and answers nil or an error; what the client then sends on that
    channel is [delivered], and [closes] tells whether it closes the channel
    after that. *)
Record DockerClient : Type := {
  ListContainers : docker_ListContainersOptions -> list docker_APIContainers + error;
  AddEventListener : option error;
  delivered : list docker_APIEvents;
  closes : bool
}.

(** A channel of events, [make(chan Event, cap)]: everything sent on it so
    far, oldest first, and how many of these values have been received. The
    values in between are the buffer. *)
Record Chan : Type := {
  chan_cap : nat;
  chan_sent : list Event;
  chan_recvd : nat
}.

Definition chan_buffer (c : Chan) : list Event := drop (chan_recvd c) (chan_sent c).

Definition chan_full (c : Chan) : bool :=
  (chan_cap c <=? length (chan_buffer c))%nat.

Definition chan_push (x : Event) (c : Chan) : Chan :=
  {| chan_cap := chan_cap c; chan_sent := (chan_sent c ++ [x])%list; chan_recvd := chan_recvd c |}.

Definition chan_pop (c : Chan) : Chan :=
  {| chan_cap := chan_cap c; chan_sent := chan_sent c; chan_recvd := S (chan_recvd c) |}.

(** How a call ends: it returns, it panics, or it waits forever. *)
Inductive Outcome (A : Type) : Type :=
| Returns (a : A)
| Panics (msg : string)
| Blocks.
Arguments Returns {A} a.
Arguments Panics {A} msg.
Arguments Blocks {A}.

Definition upStatuses : list string := ["start"; "restart"].
Definition downStatuses : list string := ["die"; "destroy"; "stop"; "pause"].

(** ** Vocabulary of the statements about names and groups *)

Definition newline : ascii := "010"%char.

Fixpoint has_char (c : ascii) (s : string) : bool :=
  match s with
  | EmptyString => false
  | String a s' => Ascii.eqb a c || has_char c s'
  end.

Fixpoint all_digits (s : string) : bool :=
  match s with
  | EmptyString => true
  | String a s' => isDigit a && all_digits s'
  end.

(** A replica number: one or more decimal digits. *)
Definition replica_number (d : string) : Prop := d <> "" /\ all_digits d = true.

(** A swarm-style name: [<service>.<replica-number>.<rest>]. *)
Definition swarm_name (raw : string) : Prop :=
  exists service replica rest,
    raw = service +:+ "." +:+ replica +:+ "." +:+ rest /\ replica_number replica.

(** An image reference with a path segment between two slashes on one
    line. *)
Definition has_group_segment (image : string) : Prop :=
  exists a g b,
    image = a +:+ "/" +:+ g +:+ "/" +:+ b /\
    has_char "/" g = false /\ has_char newline g = false.

(** Every byte of [s] is in the class [p]. *)
Fixpoint all_chars (p : ascii -> bool) (s : string) : bool :=
  match s with
  | EmptyString => true
  | String a s' => p a && all_chars p s'
  end.

(** The star of a one-byte class [p] in closed form: the continuation [k]
    is tried behind each prefix of bytes of the class, the longest first
    when greedy and the shortest first when lazy. *)
Fixpoint run (p : ascii -> bool) (greedy : bool) (s : string)
    (k : string -> option caps) : option caps :=
  match s with
  | String a s' =>
      if p a then
        if greedy then or_else (run p greedy s' k) (k s)
        else or_else (k s) (run p greedy s' k)
      else k s
  | EmptyString => k s
  end.

Definition notNewline (a : ascii) : bool := negb (isNewline a).

(** What [reGroup] does behind its opening slash, which starts [s]: [t] is
    the input behind group 1. *)
Definition group_tail (s s' t : string) : option caps :=
  match t with
  | String b t' =>
      if Ascii.eqb b "/" then Some [(0, consumed s t'); (1, consumed s' t)] else None
  | EmptyString => None
  end.

(** What [reSwarm], started at [s], does behind group 1 ([swarm_service]),
    behind group 2 ([swarm_replica]) and behind group 3 ([swarm_rest]). *)
Definition swarm_rest (s t t1 u u1 v : string) : option caps :=
  Some [(0, consumed s v); (3, consumed u1 v); (2, consumed t1 u); (1, consumed s t)].

Definition swarm_replica (s t t1 u : string) : option caps :=
  match u with
  | String b u1 =>
      if Ascii.eqb b "." then run notNewline true u1 (swarm_rest s t t1 u u1) else None
  | EmptyString => None
  end.

Definition swarm_service (s t : string) : option caps :=
  match t with
  | String b t1 =>
      if Ascii.eqb b "." then
        match t1 with
        | String d t2 =>
            if isDigit d then run isDigit true t2 (swarm_replica s t t1) else None
        | EmptyString => None
        end
      else None
  | EmptyString => None
  end.

(** ** Inputs of the scenarios *)

(** A client that lists [containers], accepts the listener and then sends
    [feed] without closing. *)
Definition client_of (containers : list docker_APIContainers) (feed : list docker_APIEvents)
    : DockerClient :=
  {| ListContainers := fun _ => inl containers;
     AddEventListener := None;
     delivered := feed;
     closes := false |}.

(** A client whose listing fails. *)
Definition failing_client : DockerClient :=
  {| ListContainers := fun _ => inr (errors_New "cannot connect to the Docker daemon");
     AddEventListener := None;
     delivered := [];
     closes := false |}.

(** The running container of the spec's scenario. *)
Definition web_container : docker_APIContainers :=
  {| c_ID := "c1"; c_Image := "myorg/api:latest"; c_Created := 1000;
     c_Names := ["/web.2.xyz"]; c_Labels := ∅ |}.

(** A listed container without a name. *)
Definition nameless_container : docker_APIContainers :=
  {| c_ID := "c2"; c_Image := "myorg/api:latest"; c_Created := 1000;
     c_Names := []; c_Labels := ∅ |}.

(** The raw event of the spec's scenario. *)
Definition worker_stop : docker_APIEvents :=
  {| ev_Type := "container"; ev_Status := "stop"; ev_From := "group/worker:v1";
     ev_Time := 1700000000; ev_TimeNano := 1700000000123456789;
     ev_Actor := {| actor_ID := "c3"; actor_Attributes := {[ "name" := "/worker" ]} |} |}.

(** The raw event for a start of the container of the scenario. *)
Definition web_start : docker_APIEvents :=
  {| ev_Type := "container"; ev_Status := "start"; ev_From := "myorg/api:latest";
     ev_Time := 1700000000; ev_TimeNano := 1700000000123456789;
     ev_Actor := {| actor_ID := "c1"; actor_Attributes := {[ "name" := "/web.2.xyz" ]} |} |}.

(** A client that refuses the listener. *)
Definition refusing_client : DockerClient :=
  {| ListContainers := fun _ => inl [web_container];
     AddEventListener := Some (errors_New "cannot connect to the Docker daemon");
     delivered := [];
     closes := false |}.

(** A raw event without the attribute "name". *)
Definition nameless_die : docker_APIEvents :=
  {| ev_Type := "container"; ev_Status := "die"; ev_From := "myorg/api:latest";
     ev_Time := 1700000000; ev_TimeNano := 1700000000123456789;
     ev_Actor := {| actor_ID := "c4"; actor_Attributes := ∅ |} |}.

(** The values of Go's [int64]. *)
Definition int64 (z : Z) : Prop :=
  (-9223372036854775808 <= z <= 9223372036854775807)%Z.

Section Notifier.

(** The compiled form of a pattern given by the user, with
    [regexp.Compile] and the method [MatchString] of Go's library. *)
Context {compiled : Type}.
Variable regexp_Compile : string -> compiled + error.
Variable MatchString : compiled -> string -> bool.

(** EventNotif emits all changes from all containers states. The field
    [eventsCh] is a reference to a channel of the [World]. *)
Record EventNotif : Type := {
  dockerClient : DockerClient;
  excludes : list string;
  includes : list string;
  includesRegexp : option compiled;
  excludesRegexp : option compiled;
  eventsCh : nat
}.

Definition isAllowed (e : EventNotif) (containerName : string) : bool :=
  match includesRegexp e with
  | Some re => MatchString re containerName
  | None =>
      match excludesRegexp e with
      | Some re => negb (MatchString re containerName)
      | None =>
          if (0 <? length (includes e))%nat then contains containerName (includes e)
          else if contains containerName (excludes e) then false
          else true
      end
  end.

(** The goroutine that runs [activate]: started by the [go] statement and
    not yet running; inside the [range] loop with the raw events that the
    client has still to send. *)
Inductive Listener : Type :=
| Spawned (e : EventNotif) (client : DockerClient)
| Ranging (e : EventNotif) (pending : list docker_APIEvents) (closing : bool).

(** What the code acts on: the requests made to [ListContainers], the
    channels made so far (a channel reference is a position in [chans]),
    the goroutines started, and whether [log.Fatalf] has ended the
    process. *)
Record World : Type := {
  listCalls : list docker_ListContainersOptions;
  chans : list Chan;
  goroutines : list Listener;
  exited : bool
}.

Definition World_init : World :=
  {| listCalls := []; chans := []; goroutines := []; exited := false |}.

Definition set_chans (cs : list Chan) (w : World) : World :=
  {| listCalls := listCalls w; chans := cs; goroutines := goroutines w; exited := exited w |}.

Definition set_goroutines (gs : list Listener) (w : World) : World :=
  {| listCalls := listCalls w; chans := chans w; goroutines := gs; exited := exited w |}.

(** *** Sequential code: a state and outcome monad *)

Definition Go (A : Type) : Type := World -> World * Outcome A.

Definition ret {A : Type} (a : A) : Go A := fun w => (w, Returns a).

Definition bind {A B : Type} (m : Go A) (k : A -> Go B) : Go B :=
  fun w =>
    match m w with
    | (w1, Returns a) => k a w1
    | (w1, Panics msg) => (w1, Panics msg)
    | (w1, Blocks) => (w1, Blocks)
    end.

Notation "x <- m ;; k" := (bind m (fun x => k))
  (at level 100, m at next level, right associativity).
Notation "m ;;; k" := (bind m (fun _ => k))
  (at level 100, right associativity).

(** [make(chan Event, cap)] *)
Definition make_chan (cap : nat) : Go nat :=
  fun w =>
    (set_chans (chans w ++ [{| chan_cap := cap; chan_sent := []; chan_recvd := 0 |}])%list w,
     Returns (length (chans w))).

(** [ch <- x] where nothing else can receive from [ch]: the send goes
    through while the buffer has room and waits forever otherwise (also on
    a nil channel). *)
Definition chan_send (ch : nat) (x : Event) : Go unit :=
  fun w =>
    match chans w !! ch with
    | Some c =>
        if chan_full c then (w, Blocks)
        else (set_chans (<[ch := chan_push x c]> (chans w)) w, Returns tt)
    | None => (w, Blocks)
    end.

(** [s[0]], which panics on an empty slice. *)
Definition first_elem (s : list string) : Go string :=
  match s with
  | x :: _ => ret x
  | [] => fun w => (w, Panics "index out of range [0] with length 0")
  end.

Definition call_ListContainers (client : DockerClient) (opts : docker_ListContainersOptions)
    : Go (list docker_APIContainers + error) :=
  fun w =>
    ({| listCalls := (listCalls w ++ [opts])%list; chans := chans w;
        goroutines := goroutines w; exited := exited w |},
     Returns (ListContainers client opts)).

(** [go func() { res.activate(client) }()] *)
Definition go_activate (e : EventNotif) (client : DockerClient) : Go unit :=
  fun w => (set_goroutines (goroutines w ++ [Spawned e client])%list w, Returns tt).

(** The [for _, c := range containers] loop of [emitRunningContainers]. *)
Fixpoint emit_each (e : EventNotif) (containers : list docker_APIContainers) : Go unit :=
  match containers with
  | [] => ret tt
  | c :: rest =>
      name0 <- first_elem (c_Names c) ;;
      let containerName := buildContainerName (c_Labels c) (strings_TrimPrefix name0 "/") in
      let groupName := buildGroupName (c_Labels c) (group (c_Image c)) in
      if negb (isAllowed e containerName) then emit_each e rest
      else
        let event := {| Status := true;
                        ContainerName := containerName;
                        ContainerID := c_ID c;
                        TS := time_Unix (Z.quot (c_Created c) 1000) 0;
                        Group := groupName |} in
        chan_send (eventsCh e) event ;;;
        emit_each e rest
  end.

(** emitRunningContainers gets all currently running containers and
    publishes them as "Status=true" (started) events. *)
Definition emitRunningContainers (e : EventNotif) : Go (option error) :=
  r <- call_ListContainers (dockerClient e) {| All := false |} ;;
  match r with
  | inr err => ret (Some (errors_Wrap err "can't list containers"))
  | inl containers => emit_each e containers ;;; ret None
  end.

(** NewEventNotif makes EventNotif publishing all changes to eventsCh. *)
Definition NewEventNotif (dockerClient : DockerClient) (excludes includes : list string)
    (includesPattern excludesPattern : string) : Go (option EventNotif * option error) :=
  match (if negb (String.eqb includesPattern "")
         then match regexp_Compile includesPattern with
              | inl re => inl (Some re)
              | inr err => inr err
              end
         else inl None) with
  | inr err => ret (None, Some (errors_Wrap err "failed to compile includesPattern"))
  | inl includesRe =>
      match (if negb (String.eqb excludesPattern "")
             then match regexp_Compile excludesPattern with
                  | inl re => inl (Some re)
                  | inr err => inr err
                  end
             else inl None) with
      | inr err => ret (None, Some (errors_Wrap err "failed to compile excludesPattern"))
      | inl excludesRe =>
          ch <- make_chan 100 ;;
          let res := {| dockerClient := dockerClient;
                        excludes := excludes;
                        includes := includes;
                        includesRegexp := includesRe;
                        excludesRegexp := excludesRe;
                        eventsCh := ch |} in
          (* first get all currently running containers *)
          err <- emitRunningContainers res ;;
          match err with
          | Some err => ret (None, Some (errors_Wrap err "failed to emit containers"))
          | None =>
              go_activate res dockerClient ;;;  (* activate listener for new container events *)
              ret (Some res, None)
          end
      end
  end.

(** *** The listener *)

(** The body of the [range] loop of [activate] for one raw event: [None]
    stands for [continue], [Some event] for the event that is sent. *)
Definition activate_event (e : EventNotif) (dockerEvent : docker_APIEvents) : option Event :=
  if negb (String.eqb (ev_Type dockerEvent) "container") then None
  else if negb (contains (ev_Status dockerEvent) upStatuses)
          && negb (contains (ev_Status dockerEvent) downStatuses) then None
  else
    let attributes := actor_Attributes (ev_Actor dockerEvent) in
    let name := match attributes !! "name" with Some v => v | None => "" end in
    let containerName := buildContainerName attributes (strings_TrimPrefix name "/") in
    let groupName := buildGroupName attributes (group (ev_From dockerEvent)) in
    if negb (isAllowed e containerName) then None
    else
      Some {| ContainerID := actor_ID (ev_Actor dockerEvent);
              ContainerName := containerName;
              Status := contains (ev_Status dockerEvent) upStatuses;
              TS := time_Unix (Z.quot (ev_Time dockerEvent) 1000) (ev_TimeNano dockerEvent);
              Group := groupName |}.

Definition set_exited (w : World) : World :=
  {| listCalls := listCalls w; chans := chans w; goroutines := goroutines w; exited := true |}.

(** Channel gets eventsCh with all containers events. *)
Definition Channel (e : EventNotif) : nat := eventsCh e.

(** The steps of the running program once [NewEventNotif] has returned: a
    started goroutine enters [activate] and registers its channel (an
    error there ends the process through [log.Fatalf]); the [range] loop
    takes the next raw event and either continues or sends, which has to
    wait while the events channel is full; the loop ends the process when
    the client closes its channel; a consumer receives the oldest value of
    a channel. *)
Inductive step : World -> World -> Prop :=
| step_listen w i e client :
    exited w = false ->
    goroutines w !! i = Some (Spawned e client) ->
    AddEventListener client = None ->
    step w (set_goroutines
              (<[i := Ranging e (delivered client) (closes client)]> (goroutines w)) w)
| step_listen_fatal w i e client err :
    exited w = false ->
    goroutines w !! i = Some (Spawned e client) ->
    AddEventListener client = Some err ->
    step w (set_exited w)
| step_continue w i e dockerEvent pending closing :
    exited w = false ->
    goroutines w !! i = Some (Ranging e (dockerEvent :: pending) closing) ->
    activate_event e dockerEvent = None ->
    step w (set_goroutines (<[i := Ranging e pending closing]> (goroutines w)) w)
| step_send w i e dockerEvent pending closing event c :
    exited w = false ->
    goroutines w !! i = Some (Ranging e (dockerEvent :: pending) closing) ->
    activate_event e dockerEvent = Some event ->
    chans w !! eventsCh e = Some c ->
    chan_full c = false ->
    step w (set_goroutines (<[i := Ranging e pending closing]> (goroutines w))
              (set_chans (<[eventsCh e := chan_push event c]> (chans w)) w))
| step_feed_closed w i e :
    exited w = false ->
    goroutines w !! i = Some (Ranging e [] true) ->
    step w (set_exited w)
| step_receive w ch c :
    exited w = false ->
    chans w !! ch = Some c ->
    (chan_recvd c < length (chan_sent c))%nat ->
    step w (set_chans (<[ch := chan_pop c]> (chans w)) w).

(** *** Vocabulary of the statements *)

(** The spec's [ConfigError]: a pattern that does not compile. *)
Definition ConfigError (err : error) : Prop :=
  exists cause,
    err = errors_Wrap cause "failed to compile includesPattern" \/
    err = errors_Wrap cause "failed to compile excludesPattern".

(** The spec's [CollectorError] at construction: the listing failed. *)
Definition CollectorError (err : error) : Prop :=
  exists cause,
    err = errors_Wrap (errors_Wrap cause "can't list containers") "failed to emit containers".

(** Everything sent so far on the channel [ch]. *)
Definition sent_on (ch : nat) (w : World) : list Event :=
  match chans w !! ch with
  | Some c => chan_sent c
  | None => []
  end.

(** The "started" event of a running container whose first name is
    [name0]. *)
Definition started_event (c : docker_APIContainers) (name0 : string) : Event :=
  {| ContainerID := c_ID c;
     ContainerName := buildContainerName (c_Labels c) (strings_TrimPrefix name0 "/");
     Group := buildGroupName (c_Labels c) (group (c_Image c));
     TS := mkTime (Z.quot (c_Created c) 1000) 0;
     Status := true |}.

(** The event of the snapshot for one listed container: none when the
    container has no name or its resolved name does not pass the policy. *)
Definition snapshot_of (e : EventNotif) (c : docker_APIContainers) : option Event :=
  match c_Names c with
  | name0 :: _ =>
      if isAllowed e (ContainerName (started_event c name0))
      then Some (started_event c name0)
      else None
  | [] => None
  end.

(** The events of the snapshot for a listing, in listing order. *)
Definition snapshot (e : EventNotif) (containers : list docker_APIContainers) : list Event :=
  omap (snapshot_of e) containers.

(** Whether a listed container has a first name and its resolved name
    passes the policy. *)
Definition allowed_container (e : EventNotif) (c : docker_APIContainers) : bool :=
  match c_Names c with
  | name0 :: _ =>
      isAllowed e (buildContainerName (c_Labels c) (strings_TrimPrefix name0 "/"))
  | [] => false
  end.

(** What has been received from the channel [ch] so far. *)
Definition received_on (ch : nat) (w : World) : list Event :=
  match chans w !! ch with
  | Some c => take (chan_recvd c) (chan_sent c)
  | None => []
  end.

(** The channel [c] after the values [xs] have been sent on it. *)
Definition chan_push_all (xs : list Event) (c : Chan) : Chan :=
  {| chan_cap := chan_cap c; chan_sent := (chan_sent c ++ xs)%list; chan_recvd := chan_recvd c |}.

(** What the constructor makes of a pattern: nothing for the empty string,
    else its compiled form or the error of [regexp.Compile]. *)
Definition compiled_pattern (pattern : string) : option compiled + error :=
  if negb (String.eqb pattern "")
  then match regexp_Compile pattern with
       | inl re => inl (Some re)
       | inr err => inr err
       end
  else inl None.

(** The world once the constructor has made its channel and asked for the
    running containers. *)
Definition listed (w : World) : World :=
  {| listCalls := (listCalls w ++ [{| All := false |}])%list;
     chans := (chans w ++ [{| chan_cap := 100; chan_sent := []; chan_recvd := 0 |}])%list;
     goroutines := goroutines w;
     exited := exited w |}.

(** The notifier without restrictions, on the channel 0. *)
Definition open_notifier (client : DockerClient) : EventNotif :=
  {| dockerClient := client; excludes := []; includes := [];
     includesRegexp := None; excludesRegexp := None; eventsCh := 0 |}.

(** The world of a program that has made one notifier and nothing else:
    the listing asked for, the events channel with what was sent and how
    much of it was received, and the listener. *)
Definition running (sent : list Event) (recvd : nat) (listener : Listener) : World :=
  {| listCalls := [{| All := false |}];
     chans := [{| chan_cap := 100; chan_sent := sent; chan_recvd := recvd |}];
     goroutines := [listener];
     exited := false |}.

(** The events of the listener for the raw events it has taken. *)
Definition live (e : EventNotif) (taken : list docker_APIEvents) : list Event :=
  omap (activate_event e) taken.

(** ** The inclusion policy *)

Lemma contains_elem_of (x : string) (l : list string) :
  contains x l = true <-> x ∈ l.
Proof.
  induction l as [|a l IH]; simpl.
  - split; [discriminate | intros H; inversion H].
  - destruct (String.eqb_spec a x) as [->|Hne].
    + split; [intros _; left | reflexivity].
    + rewrite IH. split; [intros H; now right | intros H].
      inversion H; subst; [congruence | assumption].
Qed.

Lemma contains_not_elem_of (x : string) (l : list string) :
  contains x l = false <-> x ∉ l.
Proof.
  rewrite <- contains_elem_of. destruct (contains x l); split; congruence.
Qed.

(** C1: [isAllowed] follows the five-step ladder, the first applicable
    step deciding alone: the include pattern; else the negated exclude
    pattern; else literal membership in a non-empty include list; else
    refusal of a name in the exclude list; else acceptance. In
    particular a name matching the include pattern is allowed even when
    the exclude list holds it. *)
Theorem isAllowed_ladder (e : EventNotif) (name : string) :
  (forall re, includesRegexp e = Some re ->
     isAllowed e name = MatchString re name) /\
  (forall re, includesRegexp e = None -> excludesRegexp e = Some re ->
     isAllowed e name = negb (MatchString re name)) /\
  (includesRegexp e = None -> excludesRegexp e = None -> includes e <> [] ->
     (isAllowed e name = true <-> name ∈ includes e)) /\
  (includesRegexp e = None -> excludesRegexp e = None -> includes e = [] ->
     name ∈ excludes e -> isAllowed e name = false) /\
  (includesRegexp e = None -> excludesRegexp e = None -> includes e = [] ->
     name ∉ excludes e -> isAllowed e name = true) /\
  (forall re, includesRegexp e = Some re -> MatchString re name = true ->
     name ∈ excludes e -> isAllowed e name = true).
Proof.
  unfold isAllowed.
  split; [intros re ->; reflexivity|].
  split; [intros re -> ->; reflexivity|].
  split.
  { intros -> -> Hne. destruct (includes e) as [|i rest]; [congruence|].
    apply contains_elem_of. }
  split.
  { intros -> -> -> Hin. simpl.
    apply contains_elem_of in Hin. now rewrite Hin. }
  split.
  { intros -> -> -> Hin. simpl.
    apply contains_not_elem_of in Hin. now rewrite Hin. }
  intros re -> Hm _. exact Hm.
Qed.

(** ** The name and group resolver *)

(** *** Strings *)

Lemma append_cons (a : ascii) (s t : string) : String a s +:+ t = String a (s +:+ t).
Proof. reflexivity. Qed.

Lemma append_nil_l (s : string) : "" +:+ s = s.
Proof. reflexivity. Qed.


Lemma append_assoc (s1 s2 s3 : string) : (s1 +:+ s2) +:+ s3 = s1 +:+ (s2 +:+ s3).
Proof. induction s1 as [|a s1 IH]; [reflexivity | now rewrite !append_cons, IH]. Qed.

Lemma length_append (s1 s2 : string) :
  String.length (s1 +:+ s2) = String.length s1 + String.length s2.
Proof.
  induction s1 as [|a s1 IH]; [reflexivity|].
  rewrite append_cons. cbn [String.length]. now rewrite IH.
Qed.

Lemma substring_prefix (x y : string) : String.substring 0 (String.length x) (x +:+ y) = x.
Proof.
  induction x as [|a x IH].
  - destruct y; reflexivity.
  - rewrite append_cons. cbn [String.length String.substring]. now rewrite IH.
Qed.

Lemma consumed_append (x y : string) : consumed (x +:+ y) y = x.
Proof.
  unfold consumed. rewrite length_append.
  replace (String.length x + String.length y - String.length y) with (String.length x) by lia.
  apply substring_prefix.
Qed.

Lemma or_else_None_r {A : Type} (a : option A) : or_else a None = a.
Proof. destruct a; reflexivity. Qed.

Lemma star_run (m : string -> caps -> cont -> option caps) (p : ascii -> bool) (g : bool) :
  (forall s cs k, m s cs k = match s with
                             | String a s' => if p a then k s' cs else None
                             | EmptyString => None
                             end) ->
  forall fuel s cs k, String.length s < fuel ->
    star m g fuel s cs k = run p g s (fun t => k t cs).
Proof.
  intros Hm fuel. induction fuel as [|fuel IH]; intros s cs k Hlt; [lia|].
  cbn [star]. rewrite Hm. destruct s as [|a s']; cbn [run].
  - destruct g; [reflexivity | apply or_else_None_r].
  - destruct (p a).
    + assert (Hlen : (String.length s' <? String.length (String a s'))%nat = true)
        by (apply Nat.ltb_lt; simpl; lia).
      rewrite Hlen. rewrite IH by (simpl in Hlt; lia). reflexivity.
    + destruct g; [reflexivity | apply or_else_None_r].
Qed.

Lemma star_any (g : bool) (s : string) (cs : caps) (k : cont) :
  star (backtrack OpAnyCharNotNL) g (S (String.length s)) s cs k
  = run notNewline g s (fun t => k t cs).
Proof.
  apply star_run; [|lia].
  intros s0 cs0 k0. destruct s0 as [|a s0]; [reflexivity|].
  cbn [backtrack]. unfold notNewline. destruct (isNewline a); reflexivity.
Qed.

Lemma star_digit (g : bool) (s : string) (cs : caps) (k : cont) :
  star (backtrack OpDigit) g (S (String.length s)) s cs k
  = run isDigit g s (fun t => k t cs).
Proof.
  apply star_run; [|lia].
  intros s0 cs0 k0. destruct s0 as [|a s0]; reflexivity.
Qed.

Lemma run_ext (p : ascii -> bool) (g : bool) (s : string) (k1 k2 : string -> option caps) :
  (forall t, k1 t = k2 t) -> run p g s k1 = run p g s k2.
Proof.
  intros Hk. induction s as [|a s IH]; cbn [run]; [apply Hk|].
  rewrite IH, Hk. reflexivity.
Qed.

Lemma backtrack_reGroup (s : string) :
  backtrack (OpCapture 0 reGroup) s [] (fun _ cs => Some cs)
  = match s with
    | String a s' => if Ascii.eqb a "/" then run notNewline false s' (group_tail s s') else None
    | EmptyString => None
    end.
Proof.
  unfold reGroup. cbn [backtrack]. destruct s as [|a s']; [reflexivity|].
  destruct (Ascii.eqb a "/"); [|reflexivity].
  rewrite star_any. reflexivity.
Qed.

Lemma backtrack_reSwarm (s : string) :
  backtrack (OpCapture 0 reSwarm) s [] (fun _ cs => Some cs)
  = run notNewline true s (swarm_service s).
Proof.
  unfold reSwarm, OpPlus. cbn [backtrack]. rewrite star_any.
  apply run_ext. intros t. unfold swarm_service.
  destruct t as [|b t1]; [reflexivity|].
  destruct (Ascii.eqb b "."); [|reflexivity].
  destruct t1 as [|d t2]; [reflexivity|].
  destruct (isDigit d); [|reflexivity].
  rewrite star_digit. apply run_ext. intros u. unfold swarm_replica.
  destruct u as [|c u1]; [reflexivity|].
  destruct (Ascii.eqb c "."); [|reflexivity].
  rewrite star_any. reflexivity.
Qed.

Lemma all_digits_all_chars (s : string) : all_digits s = all_chars isDigit s.
Proof. induction s as [|a s IH]; cbn; [reflexivity | now rewrite IH]. Qed.

Lemma no_newline_all_chars (s : string) :
  all_chars notNewline s = true <-> has_char newline s = false.
Proof.
  induction s as [|a s IH]; cbn; [tauto|].
  unfold notNewline, isNewline, newline in *.
  destruct (Ascii.eqb a "010"); cbn; [split; discriminate | exact IH].
Qed.

Lemma append_eq_append (x y u v : string) :
  x +:+ y = u +:+ v ->
  (exists w, u = x +:+ w /\ y = w +:+ v) \/ (exists w, x = u +:+ w /\ v = w +:+ y).
Proof.
  revert u. induction x as [|a x IH]; intros u H.
  - left. exists u. split; [reflexivity | exact H].
  - destruct u as [|b u].
    + right. exists (String a x). split; [reflexivity | exact (eq_sym H)].
    + rewrite !append_cons in H. injection H as -> H.
      destruct (IH u H) as [[w [-> ->]]|[w [-> ->]]]; [left | right]; exists w; split; reflexivity.
Qed.

(** *** The closed form [run] *)

Lemma run_sound (p : ascii -> bool) (g : bool) (s : string) (k : string -> option caps) (r : caps) :
  run p g s k = Some r ->
  exists x y, s = x +:+ y /\ all_chars p x = true /\ k y = Some r.
Proof.
  induction s as [|a s IH]; cbn [run]; intros H.
  - exists "", "". repeat split. exact H.
  - assert (Hhere : k (String a s) = Some r -> exists x y,
              String a s = x +:+ y /\ all_chars p x = true /\ k y = Some r).
    { intros Hk. exists "", (String a s). repeat split. exact Hk. }
    assert (Hthere : p a = true -> run p g s k = Some r -> exists x y,
              String a s = x +:+ y /\ all_chars p x = true /\ k y = Some r).
    { intros Hp Hr. destruct (IH Hr) as (x & y & -> & Hx & Hy).
      exists (String a x), y. repeat split; [|exact Hy]. cbn. now rewrite Hp, Hx. }
    destruct (p a) eqn:Hp; [|auto].
    destruct g.
    + destruct (run p true s k) eqn:Hr; cbn in H; [injection H as ->; auto | auto].
    + destruct (k (String a s)) eqn:Hk; cbn in H; [injection H as ->; auto | auto].
Qed.

Lemma run_greedy_some (p : ascii -> bool) (s : string) (k : string -> option caps) :
  (forall v, k v <> None) -> exists v, run p true s k = k v.
Proof.
  intros Hk. induction s as [|a s IH]; cbn [run]; [now exists ""|].
  destruct (p a); [|now exists (String a s)].
  destruct IH as [v Hv]. exists v. rewrite Hv.
  destruct (k v) eqn:E; [reflexivity | now apply Hk in E].
Qed.

Lemma run_greedy_complete (p : ascii -> bool) (s : string) (k : string -> option caps) :
  k s <> None -> run p true s k <> None.
Proof.
  intros Hk. destruct s as [|a s]; cbn [run]; [exact Hk|].
  destruct (p a); [|exact Hk].
  destruct (run p true s k); cbn; [discriminate | exact Hk].
Qed.

Lemma run_greedy_here (p : ascii -> bool) (t : string) (k : string -> option caps) :
  (forall x y, t = x +:+ y -> x <> "" -> k y = None) ->
  run p true t k = k t.
Proof.
  induction t as [|c t IH]; intros Hlater; cbn [run]; [reflexivity|].
  destruct (p c); [|reflexivity].
  rewrite IH.
  - rewrite (Hlater (String c "") t); [reflexivity | reflexivity | discriminate].
  - intros x y -> Hx. apply (Hlater (String c x) y); [reflexivity | discriminate].
Qed.

Lemma run_greedy_last (p : ascii -> bool) (a t : string) (k : string -> option caps) (r : caps) :
  all_chars p a = true ->
  k t = Some r ->
  (forall x y, t = x +:+ y -> x <> "" -> k y = None) ->
  run p true (a +:+ t) k = Some r.
Proof.
  intros Ha Hk Hlater. induction a as [|c a IH].
  - rewrite append_nil_l, run_greedy_here by exact Hlater. exact Hk.
  - cbn in Ha. apply andb_true_iff in Ha as [Hc Ha].
    rewrite append_cons. cbn [run]. rewrite Hc, (IH Ha). reflexivity.
Qed.

Lemma run_class_prefix (p : ascii -> bool) (x y : string) (k : string -> option caps) :
  all_chars p x = true ->
  (forall a t, p a = true -> k (String a t) = None) ->
  (forall a t, y = String a t -> p a = false) ->
  run p true (x +:+ y) k = k y.
Proof.
  intros Hx Hk Hy. induction x as [|c x IH].
  - rewrite append_nil_l. destruct y as [|a t]; cbn [run]; [reflexivity|].
    now rewrite (Hy a t eq_refl).
  - cbn in Hx. apply andb_true_iff in Hx as [Hc Hx].
    rewrite append_cons. cbn [run]. rewrite Hc, (IH Hx), (Hk c _ Hc).
    apply or_else_None_r.
Qed.

Lemma leftmost_sound (r : Regexp) (s : string) (cs : caps) :
  leftmost r s = Some cs ->
  exists pre post, s = pre +:+ post /\ backtrack r post [] (fun _ c => Some c) = Some cs.
Proof.
  induction s as [|a s IH]; cbn [leftmost]; intros H.
  - destruct (backtrack r "" [] _) eqn:E; [|discriminate].
    exists "", "". split; [reflexivity | congruence].
  - destruct (backtrack r (String a s) [] _) eqn:E.
    + exists "", (String a s). split; [reflexivity | congruence].
    + destruct (IH H) as (pre & post & -> & Hb).
      exists (String a pre), post. split; [reflexivity | exact Hb].
Qed.

Lemma leftmost_complete (r : Regexp) (pre post : string) :
  backtrack r post [] (fun _ c => Some c) <> None ->
  leftmost r (pre +:+ post) <> None.
Proof.
  intros Hb. induction pre as [|a pre IH].
  - rewrite append_nil_l. destruct post; cbn [leftmost];
      destruct (backtrack r _ [] _); congruence.
  - rewrite append_cons. cbn [leftmost].
    destruct (backtrack r (String a (pre +:+ post)) [] _); [discriminate | exact IH].
Qed.

Lemma leftmost_here (r : Regexp) (s : string) (cs : caps) :
  backtrack r s [] (fun _ c => Some c) = Some cs -> leftmost r s = Some cs.
Proof. intros H. destruct s; cbn [leftmost]; now rewrite H. Qed.

(** *** The pattern [reGroup] *)

Lemma run_lazy_slash (s s' g rest : string) :
  has_char "/" g = false -> has_char newline g = false ->
  run notNewline false (g +:+ "/" +:+ rest) (group_tail s s')
  = Some [(0, consumed s rest); (1, consumed s' ("/" +:+ rest))].
Proof.
  intros Hs Hn. induction g as [|c g IH].
  - reflexivity.
  - cbn in Hs, Hn. apply orb_false_iff in Hs as [Hc Hs]. apply orb_false_iff in Hn as [Hcn Hn].
    rewrite append_cons. cbn [run group_tail].
    unfold notNewline, isNewline. unfold newline in Hcn. rewrite Hcn, Hc. cbn.
    exact (IH Hs Hn).
Qed.

Lemma run_lazy_slash_sound (s s' t : string) (cs : caps) :
  run notNewline false t (group_tail s s') = Some cs ->
  exists g rest, t = g +:+ "/" +:+ rest /\
                 has_char "/" g = false /\ has_char newline g = false.
Proof.
  induction t as [|c t IH]; cbn [run group_tail]; [discriminate|].
  destruct (Ascii.eqb_spec c "/") as [Heq|Hc].
  - subst c. intros _. exists "", t. split; [reflexivity | split; reflexivity].
  - destruct (notNewline c) eqn:Hn; cbn; [|discriminate].
    intros H. destruct (IH H) as (g & rest & -> & Hs & Hnl).
    exists (String c g), rest. split; [reflexivity|]. cbn.
    rewrite Hs, Hnl. unfold notNewline, isNewline in Hn. unfold newline.
    apply negb_true_iff in Hn. rewrite Hn.
    apply Ascii.eqb_neq in Hc. rewrite Hc. split; reflexivity.
Qed.

Lemma leftmost_reGroup (registry g rest : string) :
  has_char "/" registry = false ->
  has_char "/" g = false -> has_char newline g = false ->
  leftmost (OpCapture 0 reGroup) (registry +:+ "/" +:+ g +:+ "/" +:+ rest)
  = Some [(0, "/" +:+ g +:+ "/"); (1, g)].
Proof.
  intros Hr Hs Hn. induction registry as [|c registry IH].
  - apply leftmost_here. rewrite backtrack_reGroup. rewrite append_nil_l.
    change ("/" +:+ g +:+ "/" +:+ rest) with (String "/" (g +:+ "/" +:+ rest)).
    cbn [Ascii.eqb Bool.eqb]. rewrite run_lazy_slash by assumption.
    do 3 f_equal.
    + f_equal. change (String "/" (g +:+ "/" +:+ rest)) with ("/" +:+ g +:+ "/" +:+ rest).
      replace ("/" +:+ g +:+ "/" +:+ rest) with (("/" +:+ g +:+ "/") +:+ rest)
        by now rewrite !append_assoc.
      apply consumed_append.
    + f_equal. f_equal. apply consumed_append.
  - cbn in Hr. apply orb_false_iff in Hr as [Hc Hr].
    rewrite append_cons. cbn [leftmost]. rewrite backtrack_reGroup, Hc. exact (IH Hr).
Qed.

Lemma leftmost_reGroup_sound (s : string) (cs : caps) :
  leftmost (OpCapture 0 reGroup) s = Some cs -> has_group_segment s.
Proof.
  intros H. apply leftmost_sound in H as (pre & post & -> & Hb).
  rewrite backtrack_reGroup in Hb. destruct post as [|a post]; [discriminate|].
  destruct (Ascii.eqb_spec a "/") as [->|]; [|discriminate].
  apply run_lazy_slash_sound in Hb as (g & rest & -> & Hs & Hn).
  exists pre, g, rest. repeat split; assumption.
Qed.

Lemma group_segment (registry g rest : string) :
  has_char "/" registry = false ->
  has_char "/" g = false -> has_char newline g = false ->
  group (registry +:+ "/" +:+ g +:+ "/" +:+ rest) = g.
Proof.
  intros Hr Hs Hn. unfold group, FindStringSubmatch.
  rewrite leftmost_reGroup by assumption. reflexivity.
Qed.

Lemma group_no_segment (image : string) :
  ~ has_group_segment image -> group image = "".
Proof.
  intros Hno. unfold group, FindStringSubmatch.
  destruct (leftmost (OpCapture 0 reGroup) image) eqn:E; [|reflexivity].
  exfalso. apply Hno. eapply leftmost_reGroup_sound, E.
Qed.

(** *** The pattern [reSwarm] *)

Lemma digit_not_dot (a : ascii) : isDigit a = true -> Ascii.eqb a "." = false.
Proof.
  intros H. destruct (Ascii.eqb_spec a ".") as [->|]; [|reflexivity].
  vm_compute in H. discriminate.
Qed.

Lemma swarm_replica_digit (s t t1 : string) (a : ascii) (u : string) :
  isDigit a = true -> swarm_replica s t t1 (String a u) = None.
Proof. intros H. cbn [swarm_replica]. now rewrite (digit_not_dot a H). Qed.

Lemma swarm_service_sound (s t : string) (cs : caps) :
  swarm_service s t = Some cs ->
  exists d b m r3,
    t = "." +:+ d +:+ "." +:+ b /\ replica_number d /\
    cs = [(0, m); (3, r3); (2, d); (1, consumed s t)].
Proof.
  unfold swarm_service. destruct t as [|c t1]; [discriminate|].
  destruct (Ascii.eqb_spec c ".") as [->|]; [|discriminate].
  destruct t1 as [|d0 t2]; [discriminate|].
  destruct (isDigit d0) eqn:Hd0; [|discriminate].
  intros H. apply run_sound in H as (x & u & -> & Hx & Hu).
  unfold swarm_replica in Hu. destruct u as [|c u1]; [discriminate|].
  destruct (Ascii.eqb_spec c ".") as [->|]; [|discriminate].
  apply run_sound in Hu as (b & v & -> & _ & Hv).
  unfold swarm_rest in Hv. injection Hv as <-.
  exists (String d0 x), (b +:+ v). eexists. eexists.
  split; [reflexivity|]. split.
  - split; [discriminate|]. rewrite all_digits_all_chars. cbn. now rewrite Hd0, Hx.
  - do 2 f_equal. f_equal. f_equal.
    change (String d0 (x +:+ String "." (b +:+ v)))
      with (String d0 x +:+ String "." (b +:+ v)).
    apply consumed_append.
Qed.

Lemma swarm_service_complete (s t d b : string) :
  t = "." +:+ d +:+ "." +:+ b -> replica_number d ->
  exists m r3, swarm_service s t = Some [(0, m); (3, r3); (2, d); (1, consumed s t)].
Proof.
  intros -> [Hne Hd]. destruct d as [|d0 x]; [congruence|].
  rewrite all_digits_all_chars in Hd. cbn in Hd. apply andb_true_iff in Hd as [Hd0 Hx].
  change ("." +:+ String d0 x +:+ "." +:+ b) with (String "." (String d0 (x +:+ String "." b))).
  cbn [swarm_service Ascii.eqb Bool.eqb]. rewrite Hd0.
  rewrite run_class_prefix; [|exact Hx|intros a u; apply swarm_replica_digit|].
  2:{ intros a u [= <- <-]. reflexivity. }
  cbn [swarm_replica Ascii.eqb Bool.eqb].
  destruct (run_greedy_some notNewline b
              (swarm_rest s (String "." (String d0 (x +:+ String "." b)))
                 (String d0 (x +:+ String "." b)) (String "." b) b)) as [v Hv];
    [discriminate|].
  rewrite Hv. unfold swarm_rest. eexists. eexists. do 3 f_equal. f_equal. f_equal.
  change (String d0 (x +:+ String "." b)) with (String d0 x +:+ String "." b).
  apply consumed_append.
Qed.

Lemma leftmost_reSwarm_sound (raw : string) (cs : caps) :
  leftmost (OpCapture 0 reSwarm) raw = Some cs ->
  exists pre service replica rest m r3,
    raw = pre +:+ service +:+ "." +:+ replica +:+ "." +:+ rest /\
    replica_number replica /\
    cs = [(0, m); (3, r3); (2, replica); (1, service)].
Proof.
  intros H. apply leftmost_sound in H as (pre & post & -> & Hb).
  rewrite backtrack_reSwarm in Hb.
  apply run_sound in Hb as (a & t & -> & _ & Ht).
  apply swarm_service_sound in Ht as (d & b & m & r3 & -> & Hd & ->).
  exists pre, a, d, b, m, r3. split; [reflexivity|]. split; [exact Hd|].
  now rewrite consumed_append.
Qed.

Lemma leftmost_reSwarm_complete (raw : string) :
  swarm_name raw -> leftmost (OpCapture 0 reSwarm) raw <> None.
Proof.
  intros (a & d & b & -> & Hd).
  induction a as [|c a IH].
  - rewrite append_nil_l. apply (leftmost_complete _ "").
    rewrite backtrack_reSwarm. apply run_greedy_complete.
    destruct (swarm_service_complete (String "." (d +:+ "." +:+ b))
                (String "." (d +:+ "." +:+ b)) d b eq_refl Hd) as (m & r3 & ->).
    discriminate.
  - rewrite append_cons. cbn [leftmost].
    destruct (backtrack _ _ _ _); [discriminate | exact IH].
Qed.

Lemma leftmost_reSwarm_last (service replica rest : string) :
  replica_number replica ->
  has_char newline service = false ->
  ~ swarm_name ("." +:+ rest) ->
  exists m r3,
    leftmost (OpCapture 0 reSwarm) (service +:+ "." +:+ replica +:+ "." +:+ rest)
    = Some [(0, m); (3, r3); (2, replica); (1, service)].
Proof.
  intros Hd Hn Hlast.
  set (t := "." +:+ replica +:+ "." +:+ rest).
  set (s := service +:+ t).
  destruct (swarm_service_complete s t replica rest eq_refl Hd) as (m & r3 & Ht).
  exists m, r3. apply leftmost_here. rewrite backtrack_reSwarm. fold s.
  unfold s at 1. rewrite (run_greedy_last _ _ _ _ _ (proj2 (no_newline_all_chars _) Hn) Ht).
  - unfold s. now rewrite consumed_append.
  - intros x y Hxy Hx.
    destruct (swarm_service s y) as [cs|] eqn:Hy; [exfalso|reflexivity].
    apply swarm_service_sound in Hy as (d2 & b2 & _ & _ & -> & Hd2 & _).
    destruct x as [|c x]; [congruence|].
    unfold t in Hxy. change ("." +:+ replica +:+ "." +:+ rest)
      with (String "." (replica +:+ "." +:+ rest)) in Hxy.
    rewrite append_cons in Hxy. injection Hxy as _ Hxy.
    symmetry in Hxy. apply append_eq_append in Hxy as [(w & Hw & Hw2)|(w & Hw & Hw2)].
    + (* the later match starts inside the replica number *)
      destruct w as [|c0 w].
      * apply Hlast. exists "", d2, b2. split; [exact (eq_sym Hw2) | exact Hd2].
      * change (String c0 w +:+ "." +:+ rest) with (String c0 (w +:+ "." +:+ rest)) in Hw2.
        change ("." +:+ d2 +:+ "." +:+ b2) with (String "." (d2 +:+ "." +:+ b2)) in Hw2.
        injection Hw2 as <- _.
        destruct Hd as [_ Hd]. rewrite all_digits_all_chars, Hw in Hd.
        clear -Hd. induction x as [|c x IH]; rewrite ?append_cons in Hd; cbn in Hd.
        -- discriminate.
        -- apply andb_true_iff in Hd as [_ Hd]. exact (IH Hd).
    + (* the later match starts behind the replica number *)
      apply Hlast. exists w, d2, b2. split; [exact Hw2 | exact Hd2].
Qed.

Lemma buildContainerName_swarm (labels : gmap string string) (raw m r3 service replica : string) :
  leftmost (OpCapture 0 reSwarm) raw = Some [(0, m); (3, r3); (2, replica); (1, service)] ->
  buildContainerName labels raw = service +:+ "-" +:+ replica.
Proof.
  intros H. unfold buildContainerName, FindStringSubmatch. rewrite H. reflexivity.
Qed.

Lemma buildContainerName_plain (labels : gmap string string) (raw : string) :
  leftmost (OpCapture 0 reSwarm) raw = None ->
  buildContainerName labels raw =
    match labels !! "logger.container.name" with
    | Some v => if String.eqb v "" then raw else v
    | None => raw
    end.
Proof.
  intros H. unfold buildContainerName, FindStringSubmatch. rewrite H.
  cbn [length Nat.eqb]. destruct (labels !! "logger.container.name") as [v|]; [|reflexivity].
  destruct (String.eqb v ""); reflexivity.
Qed.

Lemma not_swarm_leftmost (raw : string) :
  ~ swarm_name raw -> leftmost (OpCapture 0 reSwarm) raw = None.
Proof.
  intros Hno. destruct (leftmost (OpCapture 0 reSwarm) raw) as [cs|] eqn:E; [|reflexivity].
  exfalso. apply Hno.
  apply leftmost_reSwarm_sound in E as (pre & a & d & b & _ & _ & -> & Hd & _).
  exists (pre +:+ a), d, b. split; [now rewrite append_assoc | exact Hd].
Qed.

Lemma has_char_append (c : ascii) (x y : string) :
  has_char c (x +:+ y) = has_char c x || has_char c y.
Proof.
  induction x as [|a x IH]; [reflexivity|].
  rewrite append_cons. cbn [has_char]. now rewrite IH, orb_assoc.
Qed.

Lemma run_none (p : ascii -> bool) (s : string) (k : string -> option caps) :
  run p true s k = None ->
  forall x y, s = x +:+ y -> all_chars p x = true -> k y = None.
Proof.
  induction s as [|a s IH]; cbn [run]; intros Hrun x y Hxy Hx.
  - destruct x; [|discriminate Hxy]. rewrite append_nil_l in Hxy. now subst y.
  - destruct x as [|b x].
    + rewrite append_nil_l in Hxy. subst y.
      destruct (p a); [|exact Hrun].
      destruct (run p true s k); [discriminate | exact Hrun].
    + rewrite append_cons in Hxy. injection Hxy as <- ->.
      cbn in Hx. apply andb_true_iff in Hx as [Ha Hx]. rewrite Ha in Hrun.
      destruct (run p true (x +:+ y) k) eqn:E; [discriminate|].
      exact (IH eq_refl x y eq_refl Hx).
Qed.

(** The greedy star hands over behind the longest prefix of the class
    behind which the continuation succeeds. *)
Lemma run_greedy_longest (p : ascii -> bool) (s : string) (k : string -> option caps)
    (r : caps) :
  run p true s k = Some r ->
  exists x y,
    s = x +:+ y /\ all_chars p x = true /\ k y = Some r /\
    forall x1 y1, y = x1 +:+ y1 -> x1 <> "" -> all_chars p x1 = true -> k y1 = None.
Proof.
  induction s as [|a s IH]; cbn [run]; intros Hrun.
  - exists "", "". split; [reflexivity|]. split; [reflexivity|]. split; [exact Hrun|].
    intros x1 y1 Hxy Hne. destruct x1; [congruence | discriminate Hxy].
  - destruct (p a) eqn:Ha.
    + destruct (run p true s k) as [r'|] eqn:E.
      * cbn in Hrun. injection Hrun as ->.
        destruct (IH eq_refl) as (x & y & -> & Hx & Hy & Hlong).
        exists (String a x), y. split; [reflexivity|].
        split; [cbn; now rewrite Ha, Hx|]. split; [exact Hy | exact Hlong].
      * cbn in Hrun. exists "", (String a s). split; [reflexivity|].
        split; [reflexivity|]. split; [exact Hrun|].
        intros x1 y1 Hxy Hne Hx1. destruct x1 as [|b x1]; [congruence|].
        rewrite append_cons in Hxy. injection Hxy as <- ->.
        cbn in Hx1. apply andb_true_iff in Hx1 as [_ Hx1].
        exact (run_none p _ k E x1 y1 eq_refl Hx1).
    + exists "", (String a s). split; [reflexivity|]. split; [reflexivity|].
      split; [exact Hrun|].
      intros x1 y1 Hxy Hne Hx1. destruct x1 as [|b x1]; [congruence|].
      rewrite append_cons in Hxy. injection Hxy as <- _.
      cbn in Hx1. rewrite Ha in Hx1. discriminate Hx1.
Qed.

Lemma run_greedy_reaches (p : ascii -> bool) (a t : string) (k : string -> option caps) :
  all_chars p a = true -> k t <> None -> run p true (a +:+ t) k <> None.
Proof.
  intros Ha Hk. induction a as [|c a IH].
  - rewrite append_nil_l. now apply run_greedy_complete.
  - cbn in Ha. apply andb_true_iff in Ha as [Hc Ha].
    rewrite append_cons. cbn [run]. rewrite Hc.
    destruct (run p true (a +:+ t) k); [discriminate | now apply IH in Ha].
Qed.

(** On a name of one line the pattern matches from the start, and the
    replica number is the last numeric segment between dots. *)
Lemma leftmost_reSwarm_line (raw : string) :
  swarm_name raw ->
  has_char newline raw = false ->
  exists service replica rest m r3,
    raw = service +:+ "." +:+ replica +:+ "." +:+ rest /\
    replica_number replica /\
    ~ swarm_name ("." +:+ rest) /\
    leftmost (OpCapture 0 reSwarm) raw = Some [(0, m); (3, r3); (2, replica); (1, service)].
Proof.
  intros (a & d & b & Hraw & Hd) Hline.
  assert (Hstart : backtrack (OpCapture 0 reSwarm) raw [] (fun _ cs => Some cs) <> None).
  { rewrite backtrack_reSwarm. rewrite Hraw at 1. apply run_greedy_reaches.
    - apply no_newline_all_chars. rewrite Hraw, has_char_append in Hline.
      now apply orb_false_iff in Hline as [Hline _].
    - destruct (swarm_service_complete raw ("." +:+ d +:+ "." +:+ b) d b eq_refl Hd)
        as (m & r3 & ->). discriminate. }
  destruct (backtrack (OpCapture 0 reSwarm) raw [] (fun _ cs => Some cs)) as [cs|] eqn:Hb;
    [clear Hstart | congruence].
  pose proof (leftmost_here _ _ _ Hb) as Hleft.
  rewrite backtrack_reSwarm in Hb.
  apply run_greedy_longest in Hb as (x & y & Hxy & _ & Hy & Hlong).
  apply swarm_service_sound in Hy as (d1 & b1 & m & r3 & -> & Hd1 & ->).
  exists x, d1, b1, m, r3. split; [exact Hxy|]. split; [exact Hd1|].
  split.
  - intros (a2 & d2 & b2 & Hlater & Hd2).
    destruct (swarm_service_complete raw ("." +:+ d2 +:+ "." +:+ b2) d2 b2 eq_refl Hd2)
      as (m2 & r32 & Hsome).
    rewrite (Hlong (("." +:+ d1) +:+ a2) ("." +:+ d2 +:+ "." +:+ b2)) in Hsome;
      [discriminate Hsome| | |].
    + rewrite !append_assoc. do 2 f_equal. exact Hlater.
    + discriminate.
    + apply no_newline_all_chars.
      rewrite Hxy in Hline. rewrite has_char_append in Hline.
      apply orb_false_iff in Hline as [_ Hline].
      replace ("." +:+ d1 +:+ "." +:+ b1) with (("." +:+ d1) +:+ ("." +:+ b1)) in Hline
        by now rewrite !append_assoc.
      rewrite Hlater in Hline.
      replace (("." +:+ d1) +:+ a2 +:+ "." +:+ d2 +:+ "." +:+ b2)
        with ((("." +:+ d1) +:+ a2) +:+ ("." +:+ d2 +:+ "." +:+ b2)) in Hline
        by now rewrite !append_assoc.
      rewrite has_char_append in Hline. now apply orb_false_iff in Hline as [Hline _].
  - rewrite Hleft, Hxy. now rewrite consumed_append.
Qed.

(** C2, as amended: name resolution, on the raw name behind its leading
    slash. The swarm pattern binds the replica number to the last segment
    of digits between two dots, and the service to the text in front of
    it: a raw name [service.replica.rest], with a service free of line
    breaks and with no further segment of digits between dots from the dot
    in front of [rest] on, resolves to service, dash, replica number,
    whatever the labels are; and every raw name of one line that has a
    segment of digits between two dots is of this form. A raw name without
    such a segment resolves to a non-empty label [logger.container.name],
    and otherwise to itself. In particular [service.3.abcdef] resolves to
    [service-3]. [strings.TrimPrefix] takes one leading slash off. *)
Theorem buildContainerName_precedence (labels : gmap string string) (raw : string) :
  (forall service replica rest,
     raw = service +:+ "." +:+ replica +:+ "." +:+ rest ->
     replica_number replica ->
     has_char newline service = false ->
     ~ swarm_name ("." +:+ rest) ->
     buildContainerName labels raw = service +:+ "-" +:+ replica) /\
  (swarm_name raw ->
   has_char newline raw = false ->
     exists service replica rest,
       raw = service +:+ "." +:+ replica +:+ "." +:+ rest /\
       replica_number replica /\
       has_char newline service = false /\
       ~ swarm_name ("." +:+ rest) /\
       forall labels', buildContainerName labels' raw = service +:+ "-" +:+ replica) /\
  (swarm_name raw ->
     exists pre service replica rest,
       raw = pre +:+ service +:+ "." +:+ replica +:+ "." +:+ rest /\
       replica_number replica /\
       forall labels', buildContainerName labels' raw = service +:+ "-" +:+ replica) /\
  (~ swarm_name raw ->
     forall v, labels !! "logger.container.name" = Some v -> v <> "" ->
       buildContainerName labels raw = v) /\
  (~ swarm_name raw ->
     labels !! "logger.container.name" = None \/ labels !! "logger.container.name" = Some "" ->
     buildContainerName labels raw = raw) /\
  buildContainerName labels "service.3.abcdef" = "service-3" /\
  strings_TrimPrefix (String "/" raw) "/" = raw /\
  (forall c rest, raw = String c rest -> c <> "/"%char -> strings_TrimPrefix raw "/" = raw).
Proof.
  split.
  { intros service replica rest -> Hd Hn Hlast.
    destruct (leftmost_reSwarm_last service replica rest Hd Hn Hlast) as (m & r3 & H).
    exact (buildContainerName_swarm labels _ _ _ _ _ H). }
  split.
  { intros Hs Hline.
    destruct (leftmost_reSwarm_line raw Hs Hline)
      as (service & replica & rest & m & r3 & Hraw & Hd & Hlast & H).
    exists service, replica, rest. split; [exact Hraw|]. split; [exact Hd|].
    split.
    { rewrite Hraw, has_char_append in Hline. now apply orb_false_iff in Hline as [Hline _]. }
    split; [exact Hlast|].
    intros labels'. exact (buildContainerName_swarm labels' _ _ _ _ _ H). }
  split.
  { intros Hs. destruct (leftmost (OpCapture 0 reSwarm) raw) as [cs|] eqn:E.
    - apply leftmost_reSwarm_sound in E as H.
      destruct H as (pre & a & d & b & m & r3 & -> & Hd & ->).
      exists pre, a, d, b. split; [reflexivity|]. split; [exact Hd|].
      intros labels'. exact (buildContainerName_swarm labels' _ _ _ _ _ E).
    - now apply leftmost_reSwarm_complete in Hs. }
  split.
  { intros Hno v Hv Hne. rewrite (buildContainerName_plain _ _ (not_swarm_leftmost _ Hno)), Hv.
    destruct (String.eqb_spec v ""); [congruence | reflexivity]. }
  split.
  { intros Hno Hl. rewrite (buildContainerName_plain _ _ (not_swarm_leftmost _ Hno)).
    destruct Hl as [-> | ->]; reflexivity. }
  split.
  { exact (buildContainerName_swarm labels "service.3.abcdef" "service.3.abcdef" "abcdef"
             "service" "3" eq_refl). }
  split.
  { unfold strings_TrimPrefix. cbn. reflexivity. }
  intros c rest -> Hc. unfold strings_TrimPrefix. cbn.
  apply Ascii.eqb_neq in Hc. now rewrite Hc.
Qed.

(** The example in the comment on [Event.Group]. *)
Lemma group_documented : group "umputun/system/logger:latest" = "system".
Proof. reflexivity. Qed.

(** C3: group resolution. A non-empty label [logger.group.name] is the
    group; otherwise the group is the default taken from the image
    reference: for [registry/group/image:tag] the segment between the first
    two slashes, and the empty string for an image without a segment between
    two slashes. *)
Theorem buildGroupName_precedence (labels : gmap string string) (image : string) :
  (forall v, labels !! "logger.group.name" = Some v -> v <> "" ->
     buildGroupName labels (group image) = v) /\
  (labels !! "logger.group.name" = None \/ labels !! "logger.group.name" = Some "" ->
     buildGroupName labels (group image) = group image) /\
  (forall registry g rest,
     image = registry +:+ "/" +:+ g +:+ "/" +:+ rest ->
     has_char "/" registry = false ->
     has_char "/" g = false -> has_char newline g = false ->
     group image = g) /\
  (~ has_group_segment image -> group image = "") /\
  group "registry/group/image:tag" = "group" /\
  group "myorg/api:latest" = "".
Proof.
  split.
  { intros v Hv Hne. unfold buildGroupName. rewrite Hv.
    destruct (String.eqb_spec v ""); [congruence | reflexivity]. }
  split.
  { intros [H|H]; unfold buildGroupName; rewrite H; reflexivity. }
  split.
  { intros registry g rest -> Hr Hs Hn. now apply group_segment. }
  split; [apply group_no_segment|].
  split; reflexivity.
Qed.

(** ** The live listener *)

Lemma sent_on_insert (ch : nat) (c c' : Chan) (w : World) :
  chans w !! ch = Some c ->
  sent_on ch (set_chans (<[ch := c']> (chans w)) w) = chan_sent c'.
Proof.
  intros Hc. unfold sent_on, set_chans. cbn [chans].
  rewrite list_lookup_insert_eq; [reflexivity|].
  eapply lookup_lt_Some, Hc.
Qed.

(** The loop takes one raw event: while the events channel has room the
    goroutine moves on, and the channel gains what [activate_event] gives,
    nothing or one event. *)
Lemma listener_takes_event (e : EventNotif) (dockerEvent : docker_APIEvents) (w : World)
    (i : nat) (pending : list docker_APIEvents) (closing : bool) (c : Chan) :
  exited w = false ->
  goroutines w !! i = Some (Ranging e (dockerEvent :: pending) closing) ->
  chans w !! eventsCh e = Some c ->
  chan_full c = false ->
  exists w',
    step w w' /\
    goroutines w' !! i = Some (Ranging e pending closing) /\
    sent_on (eventsCh e) w' = (sent_on (eventsCh e) w ++ live e [dockerEvent])%list.
Proof.
  intros Hex Hg Hc Hroom.
  assert (Hi : (<[i := Ranging e pending closing]> (goroutines w)) !! i
               = Some (Ranging e pending closing)).
  { apply list_lookup_insert_eq. eapply lookup_lt_Some, Hg. }
  destruct (activate_event e dockerEvent) as [event|] eqn:Hev.
  - eexists. split; [eapply step_send; eassumption|].
    split; [exact Hi|].
    unfold live. cbn [omap list_omap]. rewrite Hev.
    unfold sent_on at 2. rewrite Hc.
    change (sent_on (eventsCh e)
              (set_goroutines (<[i:=Ranging e pending closing]> (goroutines w))
                 (set_chans (<[eventsCh e:=chan_push event c]> (chans w)) w)))
      with (sent_on (eventsCh e) (set_chans (<[eventsCh e:=chan_push event c]> (chans w)) w)).
    rewrite (sent_on_insert _ c) by exact Hc. reflexivity.
  - eexists. split; [eapply step_continue; eassumption|].
    split; [exact Hi|].
    unfold live. cbn [omap list_omap]. rewrite Hev.
    rewrite app_nil_r. reflexivity.
Qed.

(** C4: what the listener does with one raw event. An object type other
    than "container" (for one, "network") gives no event, whatever the
    status text is; so does a status other than "start", "restart", "die",
    "destroy", "stop" and "pause", and so does a resolved name that the
    policy refuses. Otherwise there is exactly one event, for the resolved
    name, and its status is true exactly for "start" and "restart". The
    event is what the loop sends on the events channel. *)
Theorem activate_event_filter (e : EventNotif) (dockerEvent : docker_APIEvents) :
  let attributes := actor_Attributes (ev_Actor dockerEvent) in
  let name :=
    buildContainerName attributes
      (strings_TrimPrefix (default "" (attributes !! "name")) "/") in
  (ev_Type dockerEvent <> "container" -> activate_event e dockerEvent = None) /\
  (ev_Type dockerEvent = "network" -> activate_event e dockerEvent = None) /\
  (ev_Status dockerEvent ∉ ["start"; "restart"; "die"; "destroy"; "stop"; "pause"] ->
     activate_event e dockerEvent = None) /\
  (isAllowed e name = false -> activate_event e dockerEvent = None) /\
  (ev_Type dockerEvent = "container" ->
   ev_Status dockerEvent ∈ ["start"; "restart"; "die"; "destroy"; "stop"; "pause"] ->
   isAllowed e name = true ->
     exists event,
       activate_event e dockerEvent = Some event /\
       ContainerName event = name /\
       (Status event = true <-> ev_Status dockerEvent ∈ ["start"; "restart"]) /\
       (Status event = false <-> ev_Status dockerEvent ∈ ["die"; "destroy"; "stop"; "pause"])) /\
  (forall w i pending closing c,
     exited w = false ->
     goroutines w !! i = Some (Ranging e (dockerEvent :: pending) closing) ->
     chans w !! eventsCh e = Some c ->
     chan_full c = false ->
     exists w',
       step w w' /\
       goroutines w' !! i = Some (Ranging e pending closing) /\
       sent_on (eventsCh e) w'
       = (sent_on (eventsCh e) w ++ from_option (fun x => [x]) [] (activate_event e dockerEvent))%list).
Proof.
  intros attributes name.
  assert (Hdown : forall status,
            status ∈ ["start"; "restart"; "die"; "destroy"; "stop"; "pause"] ->
            (contains status ["start"; "restart"] = false <->
             status ∈ ["die"; "destroy"; "stop"; "pause"])).
  { intros status Hin. rewrite <- contains_elem_of.
    repeat (apply elem_of_cons in Hin as [->|Hin]);
      [vm_compute; split; congruence ..|].
    apply elem_of_nil in Hin. destruct Hin. }
  change ["start"; "restart"; "die"; "destroy"; "stop"; "pause"]
    with (upStatuses ++ downStatuses)%list in *.
  change ["start"; "restart"] with upStatuses in *.
  change ["die"; "destroy"; "stop"; "pause"] with downStatuses in *.
  assert (Hrecognised : ev_Status dockerEvent ∈ (upStatuses ++ downStatuses)%list <->
            negb (contains (ev_Status dockerEvent) upStatuses)
            && negb (contains (ev_Status dockerEvent) downStatuses) = false).
  { rewrite elem_of_app, <- !contains_elem_of.
    destruct (contains _ upStatuses), (contains _ downStatuses); cbn; intuition congruence. }
  assert (Hname : name = buildContainerName attributes
                           (strings_TrimPrefix
                              match attributes !! "name" with Some v => v | None => "" end "/")).
  { unfold name. destruct (attributes !! "name"); reflexivity. }
  split.
  { intros Hty. unfold activate_event.
    apply String.eqb_neq in Hty. now rewrite Hty. }
  split.
  { intros Hty. unfold activate_event. now rewrite Hty. }
  split.
  { intros Hst. unfold activate_event.
    destruct (negb (ev_Type dockerEvent =? "container")%string); [reflexivity|].
    destruct (negb (contains (ev_Status dockerEvent) upStatuses)
              && negb (contains (ev_Status dockerEvent) downStatuses)) eqn:E; [reflexivity|].
    exfalso. apply Hst, Hrecognised. reflexivity. }
  split.
  { intros Hno. unfold activate_event.
    destruct (negb (ev_Type dockerEvent =? "container")%string); [reflexivity|].
    destruct (negb _ && negb _); [reflexivity|].
    fold attributes. rewrite Hname in Hno. rewrite Hno. reflexivity. }
  split.
  { intros Hty Hst Hok. unfold activate_event.
    rewrite Hty. cbn [String.eqb Ascii.eqb Bool.eqb negb].
    apply Hrecognised in Hst. rewrite Hst.
    fold attributes. rewrite Hname in Hok. rewrite Hok. cbn [negb].
    eexists. split; [reflexivity|]. split; [now rewrite Hname|].
    cbn [Status]. split; [apply contains_elem_of|].
    apply Hdown, Hrecognised, Hst. }
  intros w i pending closing c Hex Hg Hc Hroom.
  destruct (listener_takes_event e dockerEvent w i pending closing c Hex Hg Hc Hroom)
    as (w' & Hstep & Hg' & Hsent).
  exists w'. split; [exact Hstep|]. split; [exact Hg'|].
  rewrite Hsent. unfold live. cbn [omap list_omap].
  destruct (activate_event e dockerEvent); reflexivity.
Qed.

(** C5, as amended: the raw event of a container "/worker" from the image
    "group/worker:v1" with the status "stop", under a policy without
    restrictions, gives the event named "worker" with the status false and
    the empty group, since the image has no segment between two slashes;
    the loop sends this event on the events channel. *)
Theorem activate_worker_stop (client : DockerClient) (ch : nat) (cid : string) (t tn : Z) :
  let e := {| dockerClient := client; excludes := []; includes := [];
              includesRegexp := None; excludesRegexp := None; eventsCh := ch |} in
  let dockerEvent :=
    {| ev_Type := "container"; ev_Status := "stop"; ev_From := "group/worker:v1";
       ev_Time := t; ev_TimeNano := tn;
       ev_Actor := {| actor_ID := cid; actor_Attributes := {[ "name" := "/worker" ]} |} |} in
  let event :=
    {| ContainerID := cid; ContainerName := "worker"; Group := "";
       TS := time_Unix (Z.quot t 1000) tn; Status := false |} in
  activate_event e dockerEvent = Some event /\
  (forall w i pending closing c,
     exited w = false ->
     goroutines w !! i = Some (Ranging e (dockerEvent :: pending) closing) ->
     chans w !! ch = Some c ->
     chan_full c = false ->
     exists w',
       step w w' /\ sent_on ch w' = (sent_on ch w ++ [event])%list).
Proof.
  intros e dockerEvent event.
  assert (Hev : activate_event e dockerEvent = Some event).
  { unfold activate_event, e, dockerEvent, event.
    cbn [ev_Type ev_Status ev_From ev_Time ev_TimeNano ev_Actor actor_ID actor_Attributes].
    rewrite lookup_singleton_eq.
    assert (Hname : buildContainerName {[ "name" := "/worker" ]} (strings_TrimPrefix "/worker" "/")
                    = "worker").
    { change (strings_TrimPrefix "/worker" "/") with "worker".
      rewrite (buildContainerName_plain _ "worker" eq_refl).
      rewrite lookup_singleton_ne by discriminate. reflexivity. }
    assert (Hgroup : buildGroupName {[ "name" := "/worker" ]} (group "group/worker:v1") = "").
    { unfold buildGroupName. rewrite lookup_singleton_ne by discriminate. reflexivity. }
    rewrite Hname, Hgroup. reflexivity. }
  split; [exact Hev|].
  intros w i pending closing c Hex Hg Hc Hroom.
  destruct (listener_takes_event e dockerEvent w i pending closing c Hex Hg Hc Hroom)
    as (w' & Hstep & _ & Hsent).
  exists w'. split; [exact Hstep|].
  unfold live in Hsent. cbn [omap list_omap] in Hsent. rewrite Hev in Hsent. exact Hsent.
Qed.

(** ** The snapshot emitter *)

Lemma set_chans_id (w : World) : set_chans (chans w) w = w.
Proof. destruct w; reflexivity. Qed.


Lemma chan_push_all_nil (c : Chan) : chan_push_all [] c = c.
Proof. destruct c. unfold chan_push_all. cbn. now rewrite app_nil_r. Qed.

Lemma chan_push_all_cons (x : Event) (xs : list Event) (c : Chan) :
  chan_push_all xs (chan_push x c) = chan_push_all (x :: xs) c.
Proof. unfold chan_push_all, chan_push. cbn. now rewrite <- app_assoc. Qed.

Lemma snapshot_cons (e : EventNotif) (c : docker_APIContainers)
    (rest : list docker_APIContainers) :
  snapshot e (c :: rest)
  = (from_option (fun x => [x]) [] (snapshot_of e c) ++ snapshot e rest)%list.
Proof. unfold snapshot. cbn [omap list_omap]. destruct (snapshot_of e c); reflexivity. Qed.


(** One round of the loop of [emitRunningContainers]. *)
Lemma emit_each_cons (e : EventNotif) (c : docker_APIContainers)
    (rest : list docker_APIContainers) (w : World) :
  emit_each e (c :: rest) w =
    match c_Names c with
    | [] => (w, Panics "index out of range [0] with length 0")
    | name0 :: _ =>
        if isAllowed e (ContainerName (started_event c name0)) then
          match chan_send (eventsCh e) (started_event c name0) w with
          | (w1, Returns _) => emit_each e rest w1
          | (w1, Panics msg) => (w1, Panics msg)
          | (w1, Blocks) => (w1, Blocks)
          end
        else emit_each e rest w
    end.
Proof.
  cbn [emit_each]. unfold bind at 1. destruct (c_Names c) as [|name0 names]; [reflexivity|].
  cbn [first_elem ret]. cbn [started_event ContainerName].
  destruct (isAllowed e _); reflexivity.
Qed.

(** However the loop ends, it has sent a prefix of the snapshot on the
    events channel and has touched nothing else; when it comes to its end,
    every container had a first name and the whole snapshot is sent. *)
Lemma emit_each_sends (e : EventNotif) (containers : list docker_APIContainers) :
  forall (w w' : World) (out : Outcome unit) (c : Chan),
    chans w !! eventsCh e = Some c ->
    emit_each e containers w = (w', out) ->
    exists n,
      w' = set_chans (<[eventsCh e := chan_push_all (take n (snapshot e containers)) c]> (chans w)) w /\
      match out with
      | Returns _ =>
          take n (snapshot e containers) = snapshot e containers /\
          Forall (fun x => c_Names x <> []) containers
      | _ => True
      end.
Proof.
  induction containers as [|c0 rest IH]; intros w w' out c Hc Hrun.
  - cbn in Hrun. injection Hrun as <- <-. exists 0. split; [|split; [reflexivity|constructor]].
    cbn [take snapshot omap list_omap]. rewrite chan_push_all_nil, list_insert_id by exact Hc.
    now rewrite set_chans_id.
  - rewrite emit_each_cons in Hrun. rewrite snapshot_cons. unfold snapshot_of.
    destruct (c_Names c0) as [|name0 names] eqn:Hnames.
    { injection Hrun as <- <-. exists 0. split; [|exact I].
      cbn [take]. rewrite chan_push_all_nil, list_insert_id by exact Hc.
      now rewrite set_chans_id. }
    destruct (isAllowed e (ContainerName (started_event c0 name0))) eqn:Hallowed.
    + unfold chan_send in Hrun. rewrite Hc in Hrun.
      destruct (chan_full c) eqn:Hfull.
      { injection Hrun as <- <-. exists 0. split; [|exact I].
        cbn [take]. rewrite chan_push_all_nil, list_insert_id by exact Hc.
        now rewrite set_chans_id. }
      assert (Hlt : (eventsCh e < length (chans w))%nat) by (eapply lookup_lt_Some, Hc).
      eapply IH in Hrun as (n & -> & Hout).
      2:{ cbn [set_chans chans]. now apply list_lookup_insert_eq. }
      exists (S n). cbn [from_option app take]. split.
      * cbn [set_chans chans listCalls goroutines exited].
        rewrite list_insert_insert_eq, chan_push_all_cons. reflexivity.
      * destruct out; [|exact I|exact I]. destruct Hout as [Htake Hall].
        split; [now rewrite Htake|]. constructor; [now rewrite Hnames | exact Hall].
    + eapply IH in Hrun as (n & -> & Hout); [|exact Hc].
      exists n. cbn [from_option app]. split; [reflexivity|].
      destruct out; [|exact I|exact I]. destruct Hout as [Htake Hall].
      split; [exact Htake|]. constructor; [now rewrite Hnames | exact Hall].
Qed.

(** The loop comes to its end when every container has a first name and the
    buffer of the events channel has room for the whole snapshot. *)
Lemma emit_each_returns (e : EventNotif) (containers : list docker_APIContainers) :
  forall (w : World) (c : Chan),
    chans w !! eventsCh e = Some c ->
    Forall (fun x => c_Names x <> []) containers ->
    (length (chan_buffer c) + length (snapshot e containers) <= chan_cap c)%nat ->
    emit_each e containers w
    = (set_chans (<[eventsCh e := chan_push_all (snapshot e containers) c]> (chans w)) w,
       Returns tt).
Proof.
  induction containers as [|c0 rest IH]; intros w c Hc Hall Hroom.
  - cbn [emit_each snapshot omap list_omap ret].
    rewrite chan_push_all_nil, list_insert_id by exact Hc. now rewrite set_chans_id.
  - apply Forall_cons in Hall as [Hname Hall].
    rewrite emit_each_cons. rewrite snapshot_cons in *. unfold snapshot_of in *.
    destruct (c_Names c0) as [|name0 names]; [congruence|].
    destruct (isAllowed e (ContainerName (started_event c0 name0))) eqn:Hallowed.
    + cbn [from_option app length] in *.
      unfold chan_send. rewrite Hc.
      assert (Hfull : chan_full c = false).
      { unfold chan_full. apply Nat.leb_gt. lia. }
      rewrite Hfull.
      assert (Hlt : (eventsCh e < length (chans w))%nat) by (eapply lookup_lt_Some, Hc).
      rewrite (IH _ (chan_push (started_event c0 name0) c)).
      * cbn [set_chans chans listCalls goroutines exited].
        rewrite list_insert_insert_eq, chan_push_all_cons. reflexivity.
      * cbn [set_chans chans]. now apply list_lookup_insert_eq.
      * exact Hall.
      * unfold chan_buffer, chan_push in *. cbn [chan_sent chan_recvd chan_cap].
        rewrite length_drop, length_app in *. cbn [length]. lia.
    + cbn [from_option app] in *. now apply IH.
Qed.

Lemma snapshot_filter (e : EventNotif) (containers : list docker_APIContainers) :
  Forall2 (fun c event =>
             exists name0 names,
               c_Names c = name0 :: names /\
               ContainerID event = c_ID c /\
               ContainerName event
               = buildContainerName (c_Labels c) (strings_TrimPrefix name0 "/") /\
               Group event = buildGroupName (c_Labels c) (group (c_Image c)) /\
               Status event = true)
          (List.filter (allowed_container e) containers) (snapshot e containers).
Proof.
  induction containers as [|c rest IH]; [constructor|].
  rewrite snapshot_cons. cbn [List.filter]. unfold allowed_container at 1, snapshot_of.
  destruct (c_Names c) as [|name0 names] eqn:Hnames; [exact IH|].
  cbn [started_event ContainerName].
  destruct (isAllowed e _); [|exact IH].
  cbn [from_option app]. constructor; [|exact IH].
  exists name0, names. split; [exact Hnames|]. repeat (split; [reflexivity|]). reflexivity.
Qed.

Lemma snapshot_length (e : EventNotif) (containers : list docker_APIContainers) :
  length (snapshot e containers) = length (List.filter (allowed_container e) containers).
Proof. symmetry. eapply Forall2_length, snapshot_filter. Qed.

Lemma sent_on_push_all (ch : nat) (xs : list Event) (c : Chan) (w : World) :
  chans w !! ch = Some c ->
  sent_on ch (set_chans (<[ch := chan_push_all xs c]> (chans w)) w)
  = (sent_on ch w ++ xs)%list.
Proof.
  intros Hc. rewrite (sent_on_insert _ c) by exact Hc.
  unfold sent_on. now rewrite Hc.
Qed.

(** C6, as amended: when every listed container has a first name and the
    buffer of the events channel has room for one event per container
    whose resolved name passes the policy, [emitRunningContainers] comes to
    its end without an error and has sent exactly one event for each of
    these containers, in listing order, with the identifier, the resolved
    name and group of the container and the status true; the other
    containers give no event. *)
Theorem emitRunningContainers_snapshot (e : EventNotif) (w : World) (c : Chan)
    (containers : list docker_APIContainers) :
  ListContainers (dockerClient e) {| All := false |} = inl containers ->
  chans w !! eventsCh e = Some c ->
  Forall (fun x => c_Names x <> []) containers ->
  (length (chan_buffer c) + length (List.filter (allowed_container e) containers)
   <= chan_cap c)%nat ->
  exists w' events,
    emitRunningContainers e w = (w', Returns None) /\
    sent_on (eventsCh e) w' = (sent_on (eventsCh e) w ++ events)%list /\
    Forall2 (fun x event =>
               exists name0 names,
                 c_Names x = name0 :: names /\
                 ContainerID event = c_ID x /\
                 ContainerName event
                 = buildContainerName (c_Labels x) (strings_TrimPrefix name0 "/") /\
                 Group event = buildGroupName (c_Labels x) (group (c_Image x)) /\
                 Status event = true)
            (List.filter (allowed_container e) containers) events.
Proof.
  intros Hlist Hc Hnames Hroom.
  set (w0 := {| listCalls := (listCalls w ++ [{| All := false |}])%list; chans := chans w;
                goroutines := goroutines w; exited := exited w |}).
  exists (set_chans (<[eventsCh e := chan_push_all (snapshot e containers) c]> (chans w0)) w0),
         (snapshot e containers).
  split; [|split].
  - unfold emitRunningContainers, bind, call_ListContainers. rewrite Hlist. fold w0.
    rewrite (emit_each_returns e containers w0 c); [reflexivity|exact Hc|exact Hnames|].
    now rewrite snapshot_length.
  - rewrite (sent_on_push_all _ _ c) by exact Hc. reflexivity.
  - apply snapshot_filter.
Qed.

(** The time of the event of a running container: the creation time of
    the container divided by 1000 is taken for seconds since the epoch. *)
Lemma snapshot_timestamp (e : EventNotif) (containers : list docker_APIContainers) :
  Forall (fun event => exists x, x ∈ containers /\
                                 TS event = time_Unix (Z.quot (c_Created x) 1000) 0)
         (snapshot e containers).
Proof.
  induction containers as [|c rest IH]; [constructor|].
  rewrite snapshot_cons. apply Forall_app. split.
  - unfold snapshot_of. destruct (c_Names c) as [|name0 names]; [constructor|].
    destruct (isAllowed e _); [|constructor].
    constructor; [|constructor]. exists c. split; [left | reflexivity].
  - eapply Forall_impl; [exact IH|]. intros event (x & Hx & Hts).
    exists x. split; [now right | exact Hts].
Qed.

(** ** The constructor *)

Lemma NewEventNotif_emit (client : DockerClient) (exc inc : list string) (ip ep : string)
    (w : World) (includesRe excludesRe : option compiled) :
  compiled_pattern ip = inl includesRe ->
  compiled_pattern ep = inl excludesRe ->
  let res := {| dockerClient := client; excludes := exc; includes := inc;
                includesRegexp := includesRe; excludesRegexp := excludesRe;
                eventsCh := length (chans w) |} in
  NewEventNotif client exc inc ip ep w =
    match ListContainers client {| All := false |} with
    | inr err =>
        (listed w,
         Returns (None, Some (errors_Wrap (errors_Wrap err "can't list containers")
                                "failed to emit containers")))
    | inl containers =>
        match emit_each res containers (listed w) with
        | (w1, Returns _) =>
            (set_goroutines (goroutines w1 ++ [Spawned res client])%list w1,
             Returns (Some res, None))
        | (w1, Panics msg) => (w1, Panics msg)
        | (w1, Blocks) => (w1, Blocks)
        end
    end.
Proof.
  intros Hip Hep res. unfold NewEventNotif.
  unfold compiled_pattern in Hip, Hep. rewrite Hip, Hep.
  unfold bind at 1. cbn [make_chan]. fold res.
  unfold bind at 1. unfold emitRunningContainers. unfold bind at 1.
  unfold call_ListContainers. cbn [set_chans listCalls chans goroutines exited].
  fold (listed w). change (dockerClient res) with client.
  destruct (ListContainers client {| All := false |}) as [containers|err]; [|reflexivity].
  unfold bind at 1. destruct (emit_each res containers (listed w)) as [w1 [[]|msg|]];
    reflexivity.
Qed.

Lemma listed_lookup (w : World) :
  chans (listed w) !! length (chans w)
  = Some {| chan_cap := 100; chan_sent := []; chan_recvd := 0 |}.
Proof. unfold listed. cbn [chans]. now apply list_lookup_middle. Qed.

Lemma compiled_pattern_cases (pattern : string) :
  (exists re, compiled_pattern pattern = inl re) \/
  (exists cause, pattern <> "" /\ regexp_Compile pattern = inr cause /\
                 compiled_pattern pattern = inr cause).
Proof.
  unfold compiled_pattern. destruct (String.eqb_spec pattern "") as [->|Hne]; cbn [negb].
  - left. now exists None.
  - destruct (regexp_Compile pattern) as [re|cause].
    + left. now exists (Some re).
    + right. now exists cause.
Qed.

Lemma NewEventNotif_includes_fails (client : DockerClient) (exc inc : list string)
    (ip ep : string) (w : World) (cause : error) :
  compiled_pattern ip = inr cause ->
  NewEventNotif client exc inc ip ep w
  = (w, Returns (None, Some (errors_Wrap cause "failed to compile includesPattern"))).
Proof.
  intros Hip. unfold NewEventNotif. unfold compiled_pattern in Hip. rewrite Hip. reflexivity.
Qed.

Lemma NewEventNotif_excludes_fails (client : DockerClient) (exc inc : list string)
    (ip ep : string) (w : World) (re : option compiled) (cause : error) :
  compiled_pattern ip = inl re ->
  compiled_pattern ep = inr cause ->
  NewEventNotif client exc inc ip ep w
  = (w, Returns (None, Some (errors_Wrap cause "failed to compile excludesPattern"))).
Proof.
  intros Hip Hep. unfold NewEventNotif. unfold compiled_pattern in Hip, Hep.
  rewrite Hip, Hep. reflexivity.
Qed.

Lemma ConfigError_origin (client : DockerClient) (exc inc : list string) (ip ep : string)
    (w w' : World) (n : option EventNotif) (err : error) :
  NewEventNotif client exc inc ip ep w = (w', Returns (n, Some err)) ->
  ConfigError err ->
  w' = w /\ n = None /\
  exists cause, (ip <> "" /\ regexp_Compile ip = inr cause) \/
                (ep <> "" /\ regexp_Compile ep = inr cause).
Proof.
  intros Hrun Herr.
  destruct (compiled_pattern_cases ip) as [[ire Hip]|(cause & Hne & Hc & Hip)].
  2:{ rewrite (NewEventNotif_includes_fails _ _ _ _ _ _ _ Hip) in Hrun.
      injection Hrun as <- <- _. split; [reflexivity|]. split; [reflexivity|].
      exists cause. left. now split. }
  destruct (compiled_pattern_cases ep) as [[ere Hep]|(cause & Hne & Hc & Hep)].
  2:{ rewrite (NewEventNotif_excludes_fails _ _ _ _ _ _ _ _ Hip Hep) in Hrun.
      injection Hrun as <- <- _. split; [reflexivity|]. split; [reflexivity|].
      exists cause. right. now split. }
  exfalso. rewrite (NewEventNotif_emit _ _ _ _ _ _ _ _ Hip Hep) in Hrun.
  destruct (ListContainers client {| All := false |}) as [containers|cause].
  - destruct (emit_each _ containers (listed w)) as [w1 [[]|msg|]]; discriminate.
  - injection Hrun as _ _ <-. destruct Herr as [cause' [H|H]]; discriminate.
Qed.

(** C7: a non-empty include or exclude pattern that does not compile makes
    the constructor return no notifier and a [ConfigError], with nothing
    done before: no listing of containers is asked for, no channel is made
    and no listener is started. A [ConfigError] comes from nothing else,
    and with both patterns empty there is none and the notifier has no
    compiled pattern. *)
Theorem NewEventNotif_bad_pattern (client : DockerClient) (exc inc : list string)
    (ip ep : string) (w : World) :
  (forall cause, ip <> "" -> regexp_Compile ip = inr cause ->
     NewEventNotif client exc inc ip ep w
     = (w, Returns (None, Some (errors_Wrap cause "failed to compile includesPattern"))) /\
     ConfigError (errors_Wrap cause "failed to compile includesPattern")) /\
  (forall re cause, compiled_pattern ip = inl re -> ep <> "" -> regexp_Compile ep = inr cause ->
     NewEventNotif client exc inc ip ep w
     = (w, Returns (None, Some (errors_Wrap cause "failed to compile excludesPattern"))) /\
     ConfigError (errors_Wrap cause "failed to compile excludesPattern")) /\
  (forall w' n err,
     NewEventNotif client exc inc ip ep w = (w', Returns (n, Some err)) ->
     ConfigError err ->
     w' = w /\ n = None /\
     exists cause, (ip <> "" /\ regexp_Compile ip = inr cause) \/
                   (ep <> "" /\ regexp_Compile ep = inr cause)) /\
  (forall w' n err,
     NewEventNotif client exc inc "" "" w = (w', Returns (n, Some err)) ->
     ~ ConfigError err) /\
  (forall w' e,
     NewEventNotif client exc inc "" "" w = (w', Returns (Some e, None)) ->
     includesRegexp e = None /\ excludesRegexp e = None).
Proof.
  split.
  { intros cause Hne Hc. split; [|exists cause; now left].
    apply NewEventNotif_includes_fails. unfold compiled_pattern.
    apply String.eqb_neq in Hne. now rewrite Hne, Hc. }
  split.
  { intros re cause Hip Hne Hc. split; [|exists cause; now right].
    apply (NewEventNotif_excludes_fails _ _ _ _ _ _ re); [exact Hip|].
    unfold compiled_pattern. apply String.eqb_neq in Hne. now rewrite Hne, Hc. }
  split; [apply ConfigError_origin|].
  split.
  { intros w' n err Hrun Herr.
    destruct (ConfigError_origin _ _ _ _ _ _ _ _ _ Hrun Herr) as (_ & _ & cause & [[H _]|[H _]]);
      now apply H. }
  intros w' e Hrun.
  rewrite (NewEventNotif_emit client exc inc "" "" w None None eq_refl eq_refl) in Hrun.
  destruct (ListContainers client {| All := false |}) as [containers|cause]; [|discriminate].
  destruct (emit_each _ containers (listed w)) as [w1 [[]|msg|]]; [|discriminate|discriminate].
  injection Hrun as _ <-. split; reflexivity.
Qed.

(** C8: when the listing of the running containers fails, the constructor
    returns no notifier and an error, and it has not started the listener.
    Unless a pattern has failed to compile before the listing was asked
    for, the error is the [CollectorError] that wraps the error of the
    listing, and nothing has been sent on the channel just made. *)
Theorem NewEventNotif_listing_fails (client : DockerClient) (exc inc : list string)
    (ip ep : string) (w : World) (cause : error) :
  ListContainers client {| All := false |} = inr cause ->
  exists w' err,
    NewEventNotif client exc inc ip ep w = (w', Returns (None, Some err)) /\
    goroutines w' = goroutines w /\
    (ConfigError err /\ w' = w \/
     err = errors_Wrap (errors_Wrap cause "can't list containers") "failed to emit containers" /\
     CollectorError err /\
     listCalls w' = (listCalls w ++ [{| All := false |}])%list /\
     sent_on (length (chans w)) w' = []).
Proof.
  intros Hlist.
  destruct (compiled_pattern_cases ip) as [[ire Hip]|(c1 & Hne & Hc & Hip)].
  2:{ exists w. eexists. split; [exact (NewEventNotif_includes_fails _ _ _ _ _ _ _ Hip)|].
      split; [reflexivity|]. left. split; [exists c1; now left | reflexivity]. }
  destruct (compiled_pattern_cases ep) as [[ere Hep]|(c1 & Hne & Hc & Hep)].
  2:{ exists w. eexists. split; [exact (NewEventNotif_excludes_fails _ _ _ _ _ _ _ _ Hip Hep)|].
      split; [reflexivity|]. left. split; [exists c1; now right | reflexivity]. }
  exists (listed w). eexists. split.
  { rewrite (NewEventNotif_emit _ _ _ _ _ _ _ _ Hip Hep), Hlist. reflexivity. }
  split; [reflexivity|]. right.
  split; [reflexivity|]. split; [now exists cause|]. split; [reflexivity|].
  unfold sent_on. now rewrite listed_lookup.
Qed.

Lemma emit_each_app (e : EventNotif) (l1 l2 : list docker_APIContainers) (w : World) :
  emit_each e (l1 ++ l2)%list w =
    match emit_each e l1 w with
    | (w1, Returns _) => emit_each e l2 w1
    | (w1, Panics msg) => (w1, Panics msg)
    | (w1, Blocks) => (w1, Blocks)
    end.
Proof.
  revert w. induction l1 as [|c l1 IH]; intros w; [reflexivity|].
  change ((c :: l1) ++ l2)%list with (c :: (l1 ++ l2))%list. rewrite !emit_each_cons.
  destruct (c_Names c) as [|name0 names]; [reflexivity|].
  destruct (isAllowed e _); [|apply IH].
  destruct (chan_send (eventsCh e) (started_event c name0) w) as [w1 [[]|msg|]];
    [apply IH|reflexivity|reflexivity].
Qed.

(** C10: the snapshot needs every listed container to have a first name.
    [emitRunningContainers] comes to its end only if that is so; it does
    come to its end if that is so and the events channel has room; and it
    panics with an index out of range at the first container without a
    name. *)
Theorem emitRunningContainers_names (e : EventNotif) (containers : list docker_APIContainers) :
  ListContainers (dockerClient e) {| All := false |} = inl containers ->
  (forall w c w' r,
     chans w !! eventsCh e = Some c ->
     emitRunningContainers e w = (w', Returns r) ->
     Forall (fun x => c_Names x <> []) containers) /\
  (forall w c,
     chans w !! eventsCh e = Some c ->
     Forall (fun x => c_Names x <> []) containers ->
     (length (chan_buffer c) + length (List.filter (allowed_container e) containers)
      <= chan_cap c)%nat ->
     exists w', emitRunningContainers e w = (w', Returns None)) /\
  (forall w c front x back,
     containers = (front ++ x :: back)%list ->
     c_Names x = [] ->
     Forall (fun x => c_Names x <> []) front ->
     chans w !! eventsCh e = Some c ->
     (length (chan_buffer c) + length (List.filter (allowed_container e) front)
      <= chan_cap c)%nat ->
     exists w',
       emitRunningContainers e w = (w', Panics "index out of range [0] with length 0")).
Proof.
  intros Hlist. split; [|split].
  - intros w c w' r Hc Hrun.
    unfold emitRunningContainers, bind, call_ListContainers in Hrun. rewrite Hlist in Hrun.
    destruct (emit_each e containers _) as [w1 out] eqn:Hemit.
    destruct out as [[]|msg|]; [|discriminate|discriminate].
    eapply emit_each_sends in Hemit as (n & _ & _ & Hall); [exact Hall | exact Hc].
  - intros w c Hc Hall Hroom.
    unfold emitRunningContainers, bind, call_ListContainers. rewrite Hlist.
    rewrite (emit_each_returns e containers _ c);
      [|exact Hc|exact Hall|now rewrite snapshot_length].
    eexists. reflexivity.
  - intros w c front x back -> Hx Hfront Hc Hroom.
    unfold emitRunningContainers, bind, call_ListContainers. rewrite Hlist.
    rewrite emit_each_app, (emit_each_returns e front _ c);
      [|exact Hc|exact Hfront|now rewrite snapshot_length].
    rewrite emit_each_cons, Hx. eexists. reflexivity.
Qed.

(** ** Snapshot first, live events after *)

(** From the world in which the constructor has just started the listener,
    with the snapshot [snap] in the only channel: every world of the
    running program has the snapshot followed by the events of the raw
    events taken so far in that channel. *)
Lemma listener_invariant (e : EventNotif) (client : DockerClient) (snap : list Event)
    (w1 : World) :
  eventsCh e = 0 ->
  chans w1 = [{| chan_cap := 100; chan_sent := snap; chan_recvd := 0 |}] ->
  goroutines w1 = [Spawned e client] ->
  forall w2, rtc step w1 w2 ->
    exists taken r,
      chans w2 = [{| chan_cap := 100; chan_sent := (snap ++ live e taken)%list;
                     chan_recvd := r |}] /\
      (r <= length (snap ++ live e taken)%list)%nat /\
      (goroutines w2 = [Spawned e client] /\ taken = [] \/
       exists pending closing,
         goroutines w2 = [Ranging e pending closing] /\
         delivered client = (taken ++ pending)%list).
Proof.
  intros Hch Hchans Hgo. apply rtc_ind_r; [|intros w2 w3 Hrun Hstep IH].
  { exists [], 0. unfold live. cbn [omap list_omap]. rewrite app_nil_r.
    split; [exact Hchans|]. split; [lia|]. left. now split. }
  destruct IH as (taken & r & Hc2 & Hr & Hg2).
  inversion Hstep as [w i e0 client0 Hex Hg Hadd
                     |w i e0 client0 err Hex Hg Hadd
                     |w i e0 ev pending0 closing0 Hex Hg Hev
                     |w i e0 ev pending0 closing0 event c Hex Hg Hev Hc Hroom
                     |w i e0 Hex Hg
                     |w ch c Hex Hc Hlt]; subst.
  - (* the goroutine enters activate *)
    exists taken, r. split; [exact Hc2|]. split; [exact Hr|].
    destruct Hg2 as [[Hg2 ->]|(pending & closing & Hg2 & Hd)]; rewrite Hg2 in Hg;
      apply list_lookup_singleton_Some in Hg as [-> Hg]; [|discriminate].
    injection Hg as <- <-. right. exists (delivered client), (closes client).
    cbn [set_goroutines goroutines]. rewrite Hg2. split; reflexivity.
  - (* log.Fatalf *)
    exists taken, r. split; [exact Hc2|]. split; [exact Hr|]. exact Hg2.
  - (* continue *)
    destruct Hg2 as [[Hg2 ->]|(pending & closing & Hg2 & Hd)]; rewrite Hg2 in Hg;
      apply list_lookup_singleton_Some in Hg as [-> Hg]; [discriminate|].
    injection Hg as <- -> <-.
    exists (taken ++ [ev])%list, r. unfold live in *. rewrite omap_app.
    cbn [omap list_omap]. rewrite Hev, app_nil_r.
    split; [exact Hc2|]. split; [exact Hr|]. right. exists pending0, closing.
    cbn [set_goroutines goroutines]. rewrite Hg2. split; [reflexivity|].
    now rewrite Hd, <- app_assoc.
  - (* send *)
    destruct Hg2 as [[Hg2 ->]|(pending & closing & Hg2 & Hd)]; rewrite Hg2 in Hg;
      apply list_lookup_singleton_Some in Hg as [-> Hg]; [discriminate|].
    injection Hg as <- -> <-.
    rewrite Hch, Hc2 in Hc. cbn in Hc. injection Hc as <-.
    exists (taken ++ [ev])%list, r. unfold live in *. rewrite omap_app.
    cbn [omap list_omap]. rewrite Hev.
    cbn [set_goroutines set_chans chans goroutines]. rewrite Hch, Hc2, Hg2.
    split; [cbn; unfold chan_push; cbn; now rewrite <- app_assoc|].
    split; [rewrite !length_app in *; cbn [length]; lia|].
    right. exists pending0, closing. split; [reflexivity|].
    now rewrite Hd, <- app_assoc.
  - (* the client closes its channel *)
    exists taken, r. split; [exact Hc2|]. split; [exact Hr|]. exact Hg2.
  - (* a consumer receives *)
    rewrite Hc2 in Hc. apply list_lookup_singleton_Some in Hc as [-> <-].
    cbn [chan_recvd chan_sent] in Hlt.
    exists taken, (S r). cbn [set_chans chans goroutines]. rewrite Hc2.
    split; [reflexivity|]. split; [lia|]. exact Hg2.
Qed.

(** C9: in every run from the start of the program, the snapshot is on
    the events channel, in listing order, before the listener exists: the
    constructor starts the listener as its last act, with the whole
    snapshot sent, and from then on the channel holds the snapshot followed
    by the events of the raw events that the listener has taken, in the
    order of the feed; what a consumer has received is a prefix of that
    sequence. A constructor that does not return a notifier has not started
    the listener. *)
Theorem snapshot_before_live (client : DockerClient) (exc inc : list string) (ip ep : string) :
  match NewEventNotif client exc inc ip ep World_init with
  | (w1, Returns (Some e, None)) =>
      exists containers,
        ListContainers client {| All := false |} = inl containers /\
        goroutines w1 = [Spawned e client] /\
        sent_on (Channel e) w1 = snapshot e containers /\
        received_on (Channel e) w1 = [] /\
        forall w2, rtc step w1 w2 ->
          exists taken,
            taken `prefix_of` delivered client /\
            sent_on (Channel e) w2 = (snapshot e containers ++ live e taken)%list /\
            received_on (Channel e) w2 `prefix_of` sent_on (Channel e) w2
  | (w1, _) => goroutines w1 = []
  end.
Proof.
  destruct (compiled_pattern_cases ip) as [[ire Hip]|(c1 & _ & _ & Hip)].
  2:{ now rewrite (NewEventNotif_includes_fails _ _ _ _ _ _ _ Hip). }
  destruct (compiled_pattern_cases ep) as [[ere Hep]|(c1 & _ & _ & Hep)].
  2:{ now rewrite (NewEventNotif_excludes_fails _ _ _ _ _ _ _ _ Hip Hep). }
  rewrite (NewEventNotif_emit _ _ _ _ _ _ _ _ Hip Hep).
  destruct (ListContainers client {| All := false |}) as [containers|cause]; [|reflexivity].
  cbn [World_init chans length].
  set (res := {| dockerClient := client; excludes := exc; includes := inc;
                 includesRegexp := ire; excludesRegexp := ere; eventsCh := 0 |}).
  destruct (emit_each res containers (listed World_init)) as [w1 out] eqn:Hemit.
  pose proof (listed_lookup World_init) as Hfresh. cbn [World_init chans length] in Hfresh.
  apply (emit_each_sends res containers _ _ _ _ Hfresh) in Hemit as (n & -> & Hout).
  destruct out as [[]|msg|]; [|reflexivity|reflexivity].
  destruct Hout as [-> _].
  exists containers. split; [reflexivity|]. split; [reflexivity|].
  split; [reflexivity|]. split; [reflexivity|].
  intros w2 Hrun.
  eapply (listener_invariant res client (snapshot res containers)) in Hrun
    as (taken & r & Hc2 & Hr & Hg2); [|reflexivity|reflexivity|reflexivity].
  exists taken. split.
  { destruct Hg2 as [[_ ->]|(pending & closing & _ & ->)];
      [apply prefix_nil | now apply prefix_app_r]. }
  unfold sent_on, received_on, Channel. cbn [eventsCh res]. rewrite Hc2. cbn.
  split; [reflexivity | apply prefix_take].
Qed.

(** ** Further properties of the helpers *)

(** X1: [contains] is membership in the slice, and a slice put together
    from two holds what either part holds. *)
Theorem contains_membership (x : string) (s1 s2 : list string) :
  (contains x s1 = true <-> x ∈ s1) /\
  contains x (s1 ++ s2)%list = contains x s1 || contains x s2.
Proof.
  split; [apply contains_elem_of|].
  induction s1 as [|a s1 IH]; [reflexivity|].
  cbn [app contains]. destruct (String.eqb a x); [reflexivity | exact IH].
Qed.

Lemma leftmost_reGroup_caps (s : string) (cs : caps) :
  leftmost (OpCapture 0 reGroup) s = Some cs ->
  exists a g b,
    s = a +:+ "/" +:+ g +:+ "/" +:+ b /\
    has_char "/" g = false /\ has_char newline g = false /\
    cs = [(0, "/" +:+ g +:+ "/"); (1, g)].
Proof.
  intros H. apply leftmost_sound in H as (pre & post & -> & Hb).
  rewrite backtrack_reGroup in Hb. destruct post as [|c post]; [discriminate|].
  destruct (Ascii.eqb_spec c "/") as [->|]; [|discriminate].
  pose proof Hb as Hb'.
  apply run_lazy_slash_sound in Hb' as (g & rest & -> & Hs & Hn).
  rewrite run_lazy_slash in Hb by assumption. injection Hb as <-.
  exists pre, g, rest. split; [reflexivity|]. split; [exact Hs|]. split; [exact Hn|].
  do 3 f_equal.
  - f_equal. change (String "/" (g +:+ "/" +:+ rest)) with ("/" +:+ g +:+ "/" +:+ rest).
    replace ("/" +:+ g +:+ "/" +:+ rest) with (("/" +:+ g +:+ "/") +:+ rest)
      by now rewrite !append_assoc.
    apply consumed_append.
  - f_equal. f_equal. apply consumed_append.
Qed.

(** X2: the group taken from an image reference never holds a slash or a
    line break, and when it is not empty it stands between two slashes of
    the image. *)
Theorem group_shape (image : string) :
  has_char "/" (group image) = false /\
  has_char newline (group image) = false /\
  (group image <> "" ->
     exists a b, image = a +:+ "/" +:+ group image +:+ "/" +:+ b).
Proof.
  unfold group, FindStringSubmatch.
  destruct (leftmost (OpCapture 0 reGroup) image) as [cs|] eqn:E.
  - apply leftmost_reGroup_caps in E as (a & g & b & -> & Hs & Hn & ->).
    change (index _ 1) with g. cbn [length List.map seq Nat.eqb].
    split; [exact Hs|]. split; [exact Hn|]. intros _. now exists a, b.
  - cbn. split; [reflexivity|]. split; [reflexivity|]. congruence.
Qed.

(** ** Further properties of the listener *)

Lemma activate_event_Some (e : EventNotif) (dockerEvent : docker_APIEvents) (event : Event) :
  activate_event e dockerEvent = Some event ->
  let attributes := actor_Attributes (ev_Actor dockerEvent) in
  ev_Type dockerEvent = "container" /\
  isAllowed e (ContainerName event) = true /\
  event = {| ContainerID := actor_ID (ev_Actor dockerEvent);
             ContainerName :=
               buildContainerName attributes
                 (strings_TrimPrefix (default "" (attributes !! "name")) "/");
             Group := buildGroupName attributes (group (ev_From dockerEvent));
             TS := time_Unix (Z.quot (ev_Time dockerEvent) 1000) (ev_TimeNano dockerEvent);
             Status := contains (ev_Status dockerEvent) upStatuses |}.
Proof.
  intros H attributes. unfold activate_event in H.
  destruct (String.eqb_spec (ev_Type dockerEvent) "container") as [Hty|]; [|discriminate].
  cbn [negb] in H.
  destruct (negb _ && negb _); [discriminate|].
  fold attributes in H.
  assert (Hname : match attributes !! "name" with Some v => v | None => "" end
                  = default "" (attributes !! "name"))
    by (destruct (attributes !! "name"); reflexivity).
  rewrite Hname in H.
  destruct (isAllowed e _) eqn:Hok; [|discriminate].
  injection H as <-. split; [exact Hty|]. split; [exact Hok | reflexivity].
Qed.

Lemma buildContainerName_label (labels1 labels2 : gmap string string) (raw : string) :
  labels1 !! "logger.container.name" = labels2 !! "logger.container.name" ->
  buildContainerName labels1 raw = buildContainerName labels2 raw.
Proof. intros H. unfold buildContainerName. now rewrite H. Qed.

Lemma buildGroupName_label (labels1 labels2 : gmap string string) (defaultValue : string) :
  labels1 !! "logger.group.name" = labels2 !! "logger.group.name" ->
  buildGroupName labels1 defaultValue = buildGroupName labels2 defaultValue.
Proof. intros H. unfold buildGroupName. now rewrite H. Qed.

Lemma recognised_status (status : string) :
  status ∈ (upStatuses ++ downStatuses)%list ->
  negb (contains status upStatuses) && negb (contains status downStatuses) = false.
Proof.
  rewrite elem_of_app, <- !contains_elem_of.
  destruct (contains _ upStatuses), (contains _ downStatuses); cbn;
    intros [H|H]; congruence.
Qed.

(** X3: a raw event about a listed container is named, grouped and
    filtered like the container in the snapshot, when its attributes give
    the container's first name and the same two labels and its image field
    is the container's image: a container left out of the snapshot gives no
    live event, and the events of the others bear the snapshot's name and
    group. *)
Theorem live_matches_snapshot (e : EventNotif) (c : docker_APIContainers)
    (name0 : string) (names : list string) (dockerEvent : docker_APIEvents) :
  let attributes := actor_Attributes (ev_Actor dockerEvent) in
  c_Names c = name0 :: names ->
  attributes !! "name" = Some name0 ->
  attributes !! "logger.container.name" = c_Labels c !! "logger.container.name" ->
  attributes !! "logger.group.name" = c_Labels c !! "logger.group.name" ->
  ev_From dockerEvent = c_Image c ->
  ev_Type dockerEvent = "container" ->
  ev_Status dockerEvent ∈ (upStatuses ++ downStatuses)%list ->
  match snapshot_of e c with
  | Some started =>
      exists event,
        activate_event e dockerEvent = Some event /\
        ContainerName event = ContainerName started /\
        Group event = Group started
  | None => activate_event e dockerEvent = None
  end.
Proof.
  intros attributes Hnames Hname Hl1 Hl2 Hfrom Hty Hst.
  unfold snapshot_of, activate_event. rewrite Hnames, Hty.
  cbn [String.eqb Ascii.eqb Bool.eqb negb]. rewrite (recognised_status _ Hst).
  fold attributes. rewrite Hname, Hfrom.
  rewrite (buildContainerName_label attributes (c_Labels c) _ Hl1).
  rewrite (buildGroupName_label attributes (c_Labels c) _ Hl2).
  cbn [started_event ContainerName].
  destruct (isAllowed e _); cbn [negb]; [|reflexivity].
  eexists. split; [reflexivity|]. split; reflexivity.
Qed.

Lemma not_swarm_empty : ~ swarm_name "".
Proof.
  intros (a & d & b & H & _). destruct a; discriminate H.
Qed.

(** X4: a raw event without the attribute "name" is not dropped for that:
    its name is the label [logger.container.name], or the empty string when
    there is no such label, and the policy decides on that name. *)
Theorem activate_event_without_name (e : EventNotif) (dockerEvent : docker_APIEvents) :
  let attributes := actor_Attributes (ev_Actor dockerEvent) in
  let name := default "" (attributes !! "logger.container.name") in
  ev_Type dockerEvent = "container" ->
  ev_Status dockerEvent ∈ (upStatuses ++ downStatuses)%list ->
  attributes !! "name" = None ->
  (isAllowed e name = true ->
     exists event, activate_event e dockerEvent = Some event /\ ContainerName event = name) /\
  (isAllowed e name = false -> activate_event e dockerEvent = None).
Proof.
  intros attributes name Hty Hst Hnone.
  assert (Hname : buildContainerName attributes (strings_TrimPrefix "" "/") = name).
  { change (strings_TrimPrefix "" "/") with "".
    rewrite (buildContainerName_plain _ _ (not_swarm_leftmost _ not_swarm_empty)).
    unfold name. destruct (attributes !! "logger.container.name") as [v|]; [|reflexivity].
    destruct (String.eqb_spec v "") as [->|]; reflexivity. }
  unfold activate_event. rewrite Hty.
  cbn [String.eqb Ascii.eqb Bool.eqb negb]. rewrite (recognised_status _ Hst).
  fold attributes. rewrite Hnone, Hname.
  split; intros Hok; rewrite Hok; cbn [negb]; [|reflexivity].
  eexists. split; reflexivity.
Qed.

Lemma time_Unix_normal (sec nsec : Z) :
  (0 <= unixNsec (time_Unix sec nsec) < 1000000000)%Z /\
  (unixSec (time_Unix sec nsec) * 1000000000 + unixNsec (time_Unix sec nsec)
   = sec * 1000000000 + nsec)%Z.
Proof.
  unfold time_Unix.
  destruct ((nsec <? 0)%Z || (1000000000 <=? nsec)%Z) eqn:Hout.
  - pose proof (Z.quot_rem' nsec 1000000000) as Hqr.
    assert (Hrem : (-1000000000 < Z.rem nsec 1000000000 < 1000000000)%Z).
    { destruct (Z.neg_nonneg_cases nsec) as [Hneg|Hpos].
      + pose proof (Z.rem_bound_pos (- nsec) 1000000000 ltac:(lia) ltac:(lia)) as Hb.
        rewrite Z.rem_opp_l' in Hb. lia.
      + pose proof (Z.rem_bound_pos nsec 1000000000 Hpos ltac:(lia)). lia. }
    destruct (nsec - Z.quot nsec 1000000000 * 1000000000 <? 0)%Z eqn:Hneg;
      cbn [unixSec unixNsec];
      [apply Z.ltb_lt in Hneg | apply Z.ltb_ge in Hneg]; lia.
  - apply orb_false_iff in Hout as [H1 H2].
    apply Z.ltb_ge in H1. apply Z.leb_gt in H2. cbn [unixSec unixNsec]. lia.
Qed.

Lemma time_Unix_seconds_bound (sec nsec : Z) :
  (sec + Z.quot nsec 1000000000 - 1 <= unixSec (time_Unix sec nsec)
   <= sec + Z.quot nsec 1000000000)%Z.
Proof.
  unfold time_Unix.
  destruct ((nsec <? 0)%Z || (1000000000 <=? nsec)%Z) eqn:Hout.
  - destruct (nsec - Z.quot nsec 1000000000 * 1000000000 <? 0)%Z; cbn [unixSec]; lia.
  - apply orb_false_iff in Hout as [H1 H2].
    apply Z.ltb_ge in H1. apply Z.leb_gt in H2. cbn [unixSec].
    rewrite (Z.quot_small nsec 1000000000) by lia. lia.
Qed.

(** X5: the time of a live event is the event's [Time] divided by 1000,
    taken for seconds, plus the whole of [TimeNano], taken for nanoseconds:
    its nanoseconds lie within one second, nothing of the sum is lost, and
    for [int64] fields the seconds stay within [int64]. *)
Theorem live_timestamp (e : EventNotif) (dockerEvent : docker_APIEvents) (event : Event) :
  activate_event e dockerEvent = Some event ->
  (0 <= unixNsec (TS event) < 1000000000)%Z /\
  (unixSec (TS event) * 1000000000 + unixNsec (TS event)
   = Z.quot (ev_Time dockerEvent) 1000 * 1000000000 + ev_TimeNano dockerEvent)%Z /\
  (int64 (ev_Time dockerEvent) -> int64 (ev_TimeNano dockerEvent) ->
   int64 (unixSec (TS event))).
Proof.
  intros H. apply activate_event_Some in H as (_ & _ & ->). cbn [TS].
  split; [apply time_Unix_normal|]. split; [apply time_Unix_normal|].
  unfold int64. intros Ht Hn.
  pose proof (time_Unix_seconds_bound (Z.quot (ev_Time dockerEvent) 1000)
                (ev_TimeNano dockerEvent)) as Hb.
  pose proof (Z.quot_rem' (ev_Time dockerEvent) 1000) as Hq1.
  pose proof (Z.quot_rem' (ev_TimeNano dockerEvent) 1000000000) as Hq2.
  assert (Hr1 : (-1000 < Z.rem (ev_Time dockerEvent) 1000 < 1000)%Z).
  { destruct (Z.neg_nonneg_cases (ev_Time dockerEvent)) as [Hneg|Hpos].
    + pose proof (Z.rem_bound_pos (- ev_Time dockerEvent) 1000 ltac:(lia) ltac:(lia)) as Hb'.
      rewrite Z.rem_opp_l' in Hb'. lia.
    + pose proof (Z.rem_bound_pos _ 1000 Hpos ltac:(lia)). lia. }
  assert (Hr2 : (-1000000000 < Z.rem (ev_TimeNano dockerEvent) 1000000000 < 1000000000)%Z).
  { destruct (Z.neg_nonneg_cases (ev_TimeNano dockerEvent)) as [Hneg|Hpos].
    + pose proof (Z.rem_bound_pos (- ev_TimeNano dockerEvent) 1000000000
                    ltac:(lia) ltac:(lia)) as Hb'.
      rewrite Z.rem_opp_l' in Hb'. lia.
    + pose proof (Z.rem_bound_pos _ 1000000000 Hpos ltac:(lia)). lia. }
  lia.
Qed.

(** ** Further properties of the constructor *)

Lemma ConfigError_not_CollectorError (err : error) :
  ~ (ConfigError err /\ CollectorError err).
Proof.
  intros [[c1 [H1|H1]] [c2 H2]]; rewrite H1 in H2; discriminate H2.
Qed.

(** X6: what [NewEventNotif] returns is a notifier without an error or an
    error without a notifier, never both and never neither. The error is a
    [ConfigError], with nothing done, or a [CollectorError], never both;
    the notifier holds the client, the two lists and the compiled patterns
    it was made from, and the channel made for it. *)
Theorem NewEventNotif_result (client : DockerClient) (exc inc : list string) (ip ep : string)
    (w w' : World) (n : option EventNotif) (err : option error) :
  NewEventNotif client exc inc ip ep w = (w', Returns (n, err)) ->
  (n = None /\
   exists x, err = Some x /\
             (ConfigError x /\ w' = w \/ CollectorError x) /\
             ~ (ConfigError x /\ CollectorError x)) \/
  (err = None /\
   exists e, n = Some e /\
             dockerClient e = client /\ excludes e = exc /\ includes e = inc /\
             compiled_pattern ip = inl (includesRegexp e) /\
             compiled_pattern ep = inl (excludesRegexp e) /\
             eventsCh e = length (chans w)).
Proof.
  intros Hrun.
  destruct (compiled_pattern_cases ip) as [[ire Hip]|(cause & _ & _ & Hip)].
  2:{ rewrite (NewEventNotif_includes_fails _ _ _ _ _ _ _ Hip) in Hrun.
      injection Hrun as <- <- <-. left. split; [reflexivity|]. eexists.
      split; [reflexivity|]. split; [|apply ConfigError_not_CollectorError].
      left. split; [exists cause; now left | reflexivity]. }
  destruct (compiled_pattern_cases ep) as [[ere Hep]|(cause & _ & _ & Hep)].
  2:{ rewrite (NewEventNotif_excludes_fails _ _ _ _ _ _ _ _ Hip Hep) in Hrun.
      injection Hrun as <- <- <-. left. split; [reflexivity|]. eexists.
      split; [reflexivity|]. split; [|apply ConfigError_not_CollectorError].
      left. split; [exists cause; now right | reflexivity]. }
  rewrite (NewEventNotif_emit _ _ _ _ _ _ _ _ Hip Hep) in Hrun.
  destruct (ListContainers client {| All := false |}) as [containers|cause].
  - destruct (emit_each _ containers (listed w)) as [w1 [[]|msg|]];
      [|discriminate|discriminate].
    injection Hrun as _ <- <-. right. split; [reflexivity|]. eexists.
    split; [reflexivity|]. cbn. repeat (split; [reflexivity|]).
    split; [exact Hip|]. split; [exact Hep | reflexivity].
  - injection Hrun as _ <- <-. left. split; [reflexivity|]. eexists.
    split; [reflexivity|]. split; [|apply ConfigError_not_CollectorError].
    right. now exists cause.
Qed.

(** X7: what [NewEventNotif] does to the world, however it ends. It asks
    for the containers at most once, and then for the running ones only; it
    leaves the channels that were there as they were and makes at most one;
    it does not end the process; and it starts the listener exactly when it
    returns a notifier, once, for that notifier. *)
Theorem NewEventNotif_frame (client : DockerClient) (exc inc : list string) (ip ep : string)
    (w w' : World) (out : Outcome (option EventNotif * option error)) :
  NewEventNotif client exc inc ip ep w = (w', out) ->
  exited w' = exited w /\
  (listCalls w' = listCalls w \/
   listCalls w' = (listCalls w ++ [{| All := false |}])%list) /\
  (forall ch c, chans w !! ch = Some c -> chans w' !! ch = Some c) /\
  (length (chans w') <= S (length (chans w)))%nat /\
  ((exists e, out = Returns (Some e, None) /\
              goroutines w' = (goroutines w ++ [Spawned e client])%list) \/
   ((forall e, out <> Returns (Some e, None)) /\ goroutines w' = goroutines w)).
Proof.
  intros Hrun.
  assert (Hsame : forall x, NewEventNotif client exc inc ip ep w = (w, Returns (None, Some x)) ->
            exited w' = exited w /\
            (listCalls w' = listCalls w \/
             listCalls w' = (listCalls w ++ [{| All := false |}])%list) /\
            (forall ch c, chans w !! ch = Some c -> chans w' !! ch = Some c) /\
            (length (chans w') <= S (length (chans w)))%nat /\
            ((exists e, out = Returns (Some e, None) /\
                        goroutines w' = (goroutines w ++ [Spawned e client])%list) \/
             ((forall e, out <> Returns (Some e, None)) /\ goroutines w' = goroutines w))).
  { intros x Hx. rewrite Hx in Hrun. injection Hrun as <- <-.
    split; [reflexivity|]. split; [now left|]. split; [auto|]. split; [lia|].
    right. split; [discriminate | reflexivity]. }
  destruct (compiled_pattern_cases ip) as [[ire Hip]|(cause & _ & _ & Hip)].
  2:{ eapply Hsame, NewEventNotif_includes_fails, Hip. }
  destruct (compiled_pattern_cases ep) as [[ere Hep]|(cause & _ & _ & Hep)].
  2:{ eapply Hsame, NewEventNotif_excludes_fails; eassumption. }
  clear Hsame. rewrite (NewEventNotif_emit _ _ _ _ _ _ _ _ Hip Hep) in Hrun.
  assert (Hold : forall ch c x, chans w !! ch = Some c ->
            (<[length (chans w) := x]> (chans (listed w))) !! ch = Some c).
  { intros ch c x Hc. pose proof (lookup_lt_Some _ _ _ Hc) as Hlt.
    rewrite list_lookup_insert_ne by lia. unfold listed. cbn [chans].
    now rewrite lookup_app_l. }
  set (res := {| dockerClient := client; excludes := exc; includes := inc;
                 includesRegexp := ire; excludesRegexp := ere;
                 eventsCh := length (chans w) |}) in *.
  destruct (ListContainers client {| All := false |}) as [containers|cause].
  - destruct (emit_each res containers (listed w)) as [w1 o] eqn:Hemit.
    apply (emit_each_sends res containers _ _ _ _ (listed_lookup w)) in Hemit as (k & -> & _).
    cbn [eventsCh res] in *.
    destruct o as [[]|msg|]; injection Hrun as <- <-;
      (split; [reflexivity|]); (split; [now right|]);
      (split; [intros ch c Hc; cbn [set_goroutines set_chans chans]; now apply Hold|]);
      (split; [cbn [set_goroutines set_chans chans]; rewrite length_insert; unfold listed;
               cbn [chans]; rewrite length_app; cbn [length]; lia|]).
    + left. eexists. split; reflexivity.
    + right. split; [discriminate | reflexivity].
    + right. split; [discriminate | reflexivity].
  - injection Hrun as <- <-. split; [reflexivity|]. split; [now right|].
    split.
    { intros ch c Hc. unfold listed. cbn [chans]. rewrite lookup_app_l; [exact Hc|].
      eapply lookup_lt_Some, Hc. }
    split; [unfold listed; cbn [chans]; rewrite length_app; cbn [length]; lia|].
    right. split; [discriminate | reflexivity].
Qed.

(** A loop that comes to its end has found room for the whole snapshot. *)
Lemma emit_each_room (e : EventNotif) (containers : list docker_APIContainers) :
  forall (w w' : World) (c : Chan),
    chans w !! eventsCh e = Some c ->
    (chan_recvd c <= length (chan_sent c))%nat ->
    (length (chan_buffer c) <= chan_cap c)%nat ->
    emit_each e containers w = (w', Returns tt) ->
    (length (chan_buffer c) + length (snapshot e containers) <= chan_cap c)%nat.
Proof.
  induction containers as [|c0 rest IH]; intros w w' c Hc Hwf Hcap Hrun.
  - cbn [snapshot omap list_omap length]. lia.
  - rewrite emit_each_cons in Hrun. rewrite snapshot_cons. unfold snapshot_of.
    destruct (c_Names c0) as [|name0 names]; [discriminate|].
    destruct (isAllowed e (ContainerName (started_event c0 name0))).
    + unfold chan_send in Hrun. rewrite Hc in Hrun.
      destruct (chan_full c) eqn:Hfull; [discriminate|].
      unfold chan_full in Hfull. apply Nat.leb_gt in Hfull.
      assert (Hlt : (eventsCh e < length (chans w))%nat) by (eapply lookup_lt_Some, Hc).
      eapply (IH _ _ (chan_push (started_event c0 name0) c)) in Hrun.
      * unfold chan_buffer, chan_push in *. cbn [chan_sent chan_recvd chan_cap] in *.
        rewrite length_drop, ?length_app in *. cbn [from_option length] in *. lia.
      * cbn [set_chans chans]. now apply list_lookup_insert_eq.
      * unfold chan_push. cbn [chan_sent chan_recvd]. rewrite length_app. lia.
      * unfold chan_buffer, chan_push in *. cbn [chan_sent chan_recvd chan_cap] in *.
        rewrite length_drop, ?length_app in *. cbn [length] in *. lia.
    + cbn [from_option app]. eapply IH; eassumption.
Qed.

(** X8: [NewEventNotif] returns a notifier exactly when both patterns are
    empty or compile, the listing succeeds, every listed container has a
    first name, and at most 100 of them pass the policy. *)
Theorem NewEventNotif_succeeds_iff (client : DockerClient) (exc inc : list string)
    (ip ep : string) (w : World) :
  (exists w' e, NewEventNotif client exc inc ip ep w = (w', Returns (Some e, None))) <->
  (exists ire ere containers,
     compiled_pattern ip = inl ire /\
     compiled_pattern ep = inl ere /\
     ListContainers client {| All := false |} = inl containers /\
     Forall (fun x => c_Names x <> []) containers /\
     (length (List.filter
                (allowed_container
                   {| dockerClient := client; excludes := exc; includes := inc;
                      includesRegexp := ire; excludesRegexp := ere;
                      eventsCh := length (chans w) |})
                containers) <= 100)%nat).
Proof.
  split.
  - intros (w' & e & Hrun).
    destruct (compiled_pattern_cases ip) as [[ire Hip]|(cause & _ & _ & Hip)].
    2:{ rewrite (NewEventNotif_includes_fails _ _ _ _ _ _ _ Hip) in Hrun. discriminate. }
    destruct (compiled_pattern_cases ep) as [[ere Hep]|(cause & _ & _ & Hep)].
    2:{ rewrite (NewEventNotif_excludes_fails _ _ _ _ _ _ _ _ Hip Hep) in Hrun.
        discriminate. }
    rewrite (NewEventNotif_emit _ _ _ _ _ _ _ _ Hip Hep) in Hrun.
    set (res := {| dockerClient := client; excludes := exc; includes := inc;
                   includesRegexp := ire; excludesRegexp := ere;
                   eventsCh := length (chans w) |}) in *.
    destruct (ListContainers client {| All := false |}) as [containers|cause];
      [|discriminate].
    destruct (emit_each res containers (listed w)) as [w1 o] eqn:Hemit.
    destruct o as [[]|msg|]; [|discriminate|discriminate].
    exists ire, ere, containers.
    split; [exact Hip|]. split; [exact Hep|]. split; [reflexivity|].
    fold res. split.
    + pose proof Hemit as Hsends.
      apply (emit_each_sends res containers _ _ _ _ (listed_lookup w)) in Hsends
        as (k & _ & _ & Hall).
      exact Hall.
    + rewrite <- snapshot_length.
      apply (emit_each_room res containers _ _ _ (listed_lookup w)) in Hemit;
        cbn in *; lia.
  - intros (ire & ere & containers & Hip & Hep & Hlist & Hall & Hroom).
    rewrite (NewEventNotif_emit _ _ _ _ _ _ _ _ Hip Hep), Hlist.
    set (res := {| dockerClient := client; excludes := exc; includes := inc;
                   includesRegexp := ire; excludesRegexp := ere;
                   eventsCh := length (chans w) |}) in *.
    rewrite (emit_each_returns res containers _ _ (listed_lookup w) Hall).
    + eexists. eexists. reflexivity.
    + rewrite snapshot_length. cbn. lia.
Qed.

(** X9: the channel made by the constructor has 100 places and nothing
    receives from it before the constructor returns. So when 100 named
    containers that pass the policy are followed by one more that passes,
    [NewEventNotif] waits forever on its send, with the events of the first
    100 in the channel and no listener started. *)
Theorem NewEventNotif_blocks (client : DockerClient) (exc inc : list string) (ip ep : string)
    (w : World) (ire ere : option compiled)
    (front : list docker_APIContainers) (x : docker_APIContainers)
    (back : list docker_APIContainers) :
  let res := {| dockerClient := client; excludes := exc; includes := inc;
                includesRegexp := ire; excludesRegexp := ere;
                eventsCh := length (chans w) |} in
  compiled_pattern ip = inl ire ->
  compiled_pattern ep = inl ere ->
  ListContainers client {| All := false |} = inl (front ++ x :: back)%list ->
  Forall (fun c => c_Names c <> []) front ->
  length (List.filter (allowed_container res) front) = 100 ->
  allowed_container res x = true ->
  exists w',
    NewEventNotif client exc inc ip ep w = (w', Blocks) /\
    sent_on (length (chans w)) w' = snapshot res front /\
    length (sent_on (length (chans w)) w') = 100 /\
    goroutines w' = goroutines w.
Proof.
  intros res Hip Hep Hlist Hall Hcount Hx.
  rewrite (NewEventNotif_emit _ _ _ _ _ _ _ _ Hip Hep), Hlist. fold res.
  rewrite emit_each_app.
  rewrite (emit_each_returns res front _ _ (listed_lookup w) Hall).
  2:{ rewrite snapshot_length, Hcount. cbn. lia. }
  rewrite emit_each_cons. unfold allowed_container in Hx.
  destruct (c_Names x) as [|name0 names]; [discriminate|].
  cbn [started_event ContainerName]. rewrite Hx.
  assert (Hlt : (length (chans w) < length (chans (listed w)))%nat).
  { unfold listed. cbn [chans]. rewrite length_app. cbn [length]. lia. }
  unfold chan_send. cbn [eventsCh res set_chans chans].
  rewrite list_lookup_insert_eq by exact Hlt.
  assert (Hfull : chan_full (chan_push_all (snapshot res front)
                     {| chan_cap := 100; chan_sent := []; chan_recvd := 0 |}) = true).
  { unfold chan_full, chan_buffer, chan_push_all. cbn [chan_cap chan_sent chan_recvd app drop].
    apply Nat.leb_le. rewrite drop_0, snapshot_length, Hcount. lia. }
  rewrite Hfull. eexists. split; [reflexivity|].
  unfold sent_on. cbn [set_chans chans]. rewrite list_lookup_insert_eq by exact Hlt.
  cbn [chan_push_all chan_sent app]. split; [reflexivity|].
  split; [now rewrite snapshot_length | reflexivity].
Qed.

(** ** Further properties of the snapshot and of the running program *)

Lemma snapshot_events (e : EventNotif) (containers : list docker_APIContainers) :
  Forall (fun event =>
            Status event = true /\ unixNsec (TS event) = 0%Z /\
            exists x, x ∈ containers /\ ContainerID event = c_ID x /\
                      unixSec (TS event) = Z.quot (c_Created x) 1000)
         (snapshot e containers).
Proof.
  induction containers as [|c rest IH]; [constructor|].
  rewrite snapshot_cons. apply Forall_app. split.
  - unfold snapshot_of. destruct (c_Names c) as [|name0 names]; [constructor|].
    destruct (isAllowed e _); [|constructor].
    constructor; [|constructor]. split; [reflexivity|]. split; [reflexivity|].
    exists c. split; [left|]. split; reflexivity.
  - eapply Forall_impl; [exact IH|]. intros event (Hst & Hns & x & Hx & Hid & Hts).
    split; [exact Hst|]. split; [exact Hns|]. exists x. split; [now right | now split].
Qed.

(** X10: however [emitRunningContainers] ends after a listing that
    succeeds, what it has sent is a prefix of the snapshot, in listing
    order: when it panics at a container without a name or waits on a full
    channel, the events of the containers before are sent already. Every
    event sent has the status true and the identifier of a listed
    container, and its time is that container's [Created] divided by 1000,
    in whole seconds. The listing was asked for once and no listener is
    started. *)
Theorem emitRunningContainers_partial (e : EventNotif) (w w' : World) (c : Chan)
    (out : Outcome (option error)) (containers : list docker_APIContainers) :
  ListContainers (dockerClient e) {| All := false |} = inl containers ->
  chans w !! eventsCh e = Some c ->
  emitRunningContainers e w = (w', out) ->
  exists events,
    events `prefix_of` snapshot e containers /\
    sent_on (eventsCh e) w' = (sent_on (eventsCh e) w ++ events)%list /\
    (out = Returns None -> events = snapshot e containers) /\
    Forall (fun event =>
              Status event = true /\ unixNsec (TS event) = 0%Z /\
              exists x, x ∈ containers /\ ContainerID event = c_ID x /\
                        unixSec (TS event) = Z.quot (c_Created x) 1000)
           events /\
    listCalls w' = (listCalls w ++ [{| All := false |}])%list /\
    goroutines w' = goroutines w.
Proof.
  intros Hlist Hc Hrun.
  unfold emitRunningContainers, bind, call_ListContainers in Hrun. rewrite Hlist in Hrun.
  set (w0 := {| listCalls := (listCalls w ++ [{| All := false |}])%list;
                chans := chans w; goroutines := goroutines w; exited := exited w |}) in *.
  destruct (emit_each e containers w0) as [w1 o] eqn:Hemit.
  apply (emit_each_sends e containers w0 _ _ c Hc) in Hemit as (n & -> & Ho).
  exists (take n (snapshot e containers)).
  assert (Hw : w' = set_chans (<[eventsCh e := chan_push_all (take n (snapshot e containers)) c]>
                                 (chans w)) w0).
  { destruct o as [[]|msg|]; injection Hrun as <- _; reflexivity. }
  split; [apply prefix_take|]. split.
  { rewrite Hw. unfold sent_on. cbn [set_chans chans].
    rewrite list_lookup_insert_eq by (eapply lookup_lt_Some, Hc). now rewrite Hc. }
  split.
  { intros ->. destruct o as [[]|msg|]; [|discriminate|discriminate]. now destruct Ho. }
  split; [apply Forall_take, snapshot_events|].
  rewrite Hw. split; reflexivity.
Qed.

Lemma NewEventNotif_started (client : DockerClient) (exc inc : list string) (ip ep : string)
    (w1 : World) (e : EventNotif) :
  NewEventNotif client exc inc ip ep World_init = (w1, Returns (Some e, None)) ->
  exists containers,
    ListContainers client {| All := false |} = inl containers /\
    eventsCh e = 0 /\
    w1 = running (snapshot e containers) 0 (Spawned e client).
Proof.
  intros Hrun.
  destruct (compiled_pattern_cases ip) as [[ire Hip]|(c1 & _ & _ & Hip)].
  2:{ rewrite (NewEventNotif_includes_fails _ _ _ _ _ _ _ Hip) in Hrun. discriminate. }
  destruct (compiled_pattern_cases ep) as [[ere Hep]|(c1 & _ & _ & Hep)].
  2:{ rewrite (NewEventNotif_excludes_fails _ _ _ _ _ _ _ _ Hip Hep) in Hrun. discriminate. }
  rewrite (NewEventNotif_emit _ _ _ _ _ _ _ _ Hip Hep) in Hrun.
  destruct (ListContainers client {| All := false |}) as [containers|cause]; [|discriminate].
  cbn [World_init chans length] in Hrun.
  set (res := {| dockerClient := client; excludes := exc; includes := inc;
                 includesRegexp := ire; excludesRegexp := ere; eventsCh := 0 |}) in *.
  destruct (emit_each res containers (listed World_init)) as [w0 o] eqn:Hemit.
  pose proof (listed_lookup World_init) as Hfresh. cbn [World_init chans length] in Hfresh.
  apply (emit_each_sends res containers _ _ _ _ Hfresh) in Hemit as (n & -> & Ho).
  destruct o as [[]|msg|]; [|discriminate|discriminate].
  destruct Ho as [Htake _]. rewrite Htake in Hrun. injection Hrun as <- <-.
  exists containers. split; [reflexivity|]. split; reflexivity.
Qed.

(** While the subscription has failed, the listener stays where it was
    started and nothing is sent. *)
Lemma unsubscribed_invariant (e : EventNotif) (client : DockerClient) (err : error)
    (sent : list Event) :
  AddEventListener client = Some err ->
  forall w2, rtc step (running sent 0 (Spawned e client)) w2 ->
    exists r, chans w2 = [{| chan_cap := 100; chan_sent := sent; chan_recvd := r |}] /\
              goroutines w2 = [Spawned e client].
Proof.
  intros Herr. apply rtc_ind_r; [|intros w2 w3 Hrun Hstep IH].
  { exists 0. split; reflexivity. }
  destruct IH as (r & Hc2 & Hg2).
  inversion Hstep as [w i e0 client0 Hex Hg Hadd
                     |w i e0 client0 err0 Hex Hg Hadd
                     |w i e0 ev pending0 closing0 Hex Hg Hev
                     |w i e0 ev pending0 closing0 event c Hex Hg Hev Hc Hroom
                     |w i e0 Hex Hg
                     |w ch c Hex Hc Hlt]; subst;
    try (rewrite Hg2 in Hg; apply list_lookup_singleton_Some in Hg as [-> Hg]).
  - injection Hg as <- <-. congruence.
  - exists r. split; [exact Hc2 | exact Hg2].
  - discriminate.
  - discriminate.
  - discriminate.
  - rewrite Hc2 in Hc. apply list_lookup_singleton_Some in Hc as [-> <-].
    exists (S r). cbn [set_chans chans goroutines]. rewrite Hc2. split; [reflexivity | exact Hg2].
Qed.

(** X11: when the client refuses the listener ([AddEventListener] returns
    an error), the goroutine ends the process: that step is open at once,
    no live event is ever sent, and once the process has ended nothing
    happens any more. *)
Theorem listener_subscription_fails (client : DockerClient) (exc inc : list string)
    (ip ep : string) (w1 : World) (e : EventNotif) (err : error) :
  NewEventNotif client exc inc ip ep World_init = (w1, Returns (Some e, None)) ->
  AddEventListener client = Some err ->
  (exists w2, step w1 w2 /\ exited w2 = true) /\
  (forall w2, rtc step w1 w2 -> sent_on (Channel e) w2 = sent_on (Channel e) w1) /\
  (forall w2 w3, exited w2 = true -> ~ step w2 w3).
Proof.
  intros Hrun Herr.
  apply NewEventNotif_started in Hrun as (containers & _ & Hch & ->).
  split; [|split].
  - eexists. split; [eapply (step_listen_fatal _ 0); [reflexivity|reflexivity|exact Herr]|].
    reflexivity.
  - intros w2 Hsteps.
    apply (unsubscribed_invariant e client err _ Herr) in Hsteps as (r & Hc2 & _).
    unfold sent_on, Channel. rewrite Hch, Hc2. reflexivity.
  - intros w2 w3 Hex Hstep. inversion Hstep; subst; congruence.
Qed.

Lemma running_drains (sent : list Event) (listener : Listener) :
  forall r, (r <= length sent)%nat ->
    rtc step (running sent r listener) (running sent (length sent) listener).
Proof.
  intros r Hr. remember (length sent - r)%nat as todo eqn:Htodo.
  revert r Hr Htodo. induction todo as [|todo IH]; intros r Hr Htodo.
  - replace r with (length sent) by lia. apply rtc_refl.
  - eapply rtc_l; [|apply (IH (S r)); lia].
    apply (step_receive (running sent r listener) 0
             {| chan_cap := 100; chan_sent := sent; chan_recvd := r |});
      [reflexivity | reflexivity | cbn; lia].
Qed.

Lemma running_takes (e : EventNotif) (sent : list Event) (dockerEvent : docker_APIEvents)
    (pending : list docker_APIEvents) (closing : bool) :
  eventsCh e = 0 ->
  step (running sent (length sent) (Ranging e (dockerEvent :: pending) closing))
       (running (sent ++ live e [dockerEvent])%list (length sent) (Ranging e pending closing)).
Proof.
  intros Hch. unfold live. cbn [omap list_omap].
  destruct (activate_event e dockerEvent) as [event|] eqn:Hev.
  - pose proof (step_send (running sent (length sent) (Ranging e (dockerEvent :: pending) closing))
                  0 e dockerEvent pending closing event
                  {| chan_cap := 100; chan_sent := sent; chan_recvd := length sent |}) as Hstep.
    rewrite Hch in Hstep. apply Hstep; try reflexivity; [exact Hev|].
    unfold chan_full, chan_buffer. cbn [chan_cap chan_sent chan_recvd].
    rewrite drop_all. reflexivity.
  - rewrite app_nil_r.
    apply (step_continue (running sent (length sent) (Ranging e (dockerEvent :: pending) closing))
             0 e dockerEvent pending closing); [reflexivity | reflexivity | exact Hev].
Qed.

Lemma running_takes_all (e : EventNotif) (closing : bool) (pending : list docker_APIEvents) :
  eventsCh e = 0 ->
  forall sent,
    rtc step (running sent (length sent) (Ranging e pending closing))
             (running (sent ++ live e pending)%list (length (sent ++ live e pending)%list)
                (Ranging e [] closing)).
Proof.
  intros Hch. induction pending as [|ev pending IH]; intros sent.
  - unfold live. cbn [omap list_omap]. rewrite app_nil_r. apply rtc_refl.
  - eapply rtc_l; [apply running_takes, Hch|].
    eapply rtc_trans; [apply running_drains; rewrite length_app; lia|].
    replace (sent ++ live e (ev :: pending))%list
      with ((sent ++ live e [ev]) ++ live e pending)%list.
    + apply IH.
    + rewrite <- app_assoc. f_equal. unfold live.
      change (ev :: pending) with ([ev] ++ pending)%list. now rewrite omap_app.
Qed.

(** X12: with a client that accepts the listener and a consumer that keeps
    receiving, the program gets through the whole feed: there is a run
    after which the channel has carried the snapshot followed by the events
    of all raw events of the feed, and all of it is received. There the
    program is at rest while the client keeps its channel open, and the
    listener ends the process when the client closes it. *)
Theorem listener_drains (client : DockerClient) (exc inc : list string) (ip ep : string)
    (w1 : World) (e : EventNotif) :
  NewEventNotif client exc inc ip ep World_init = (w1, Returns (Some e, None)) ->
  AddEventListener client = None ->
  exists containers w2,
    ListContainers client {| All := false |} = inl containers /\
    rtc step w1 w2 /\
    sent_on (Channel e) w2 = (snapshot e containers ++ live e (delivered client))%list /\
    received_on (Channel e) w2 = sent_on (Channel e) w2 /\
    (closes client = false -> forall w3, ~ step w2 w3) /\
    (closes client = true -> exists w3, step w2 w3 /\ exited w3 = true).
Proof.
  intros Hrun Hadd.
  apply NewEventNotif_started in Hrun as (containers & Hlist & Hch & ->).
  set (snap := snapshot e containers).
  set (all := (snap ++ live e (delivered client))%list).
  exists containers, (running all (length all) (Ranging e [] (closes client))).
  split; [exact Hlist|]. split.
  { eapply rtc_l.
    - apply (step_listen (running snap 0 (Spawned e client)) 0 e client);
        [reflexivity | reflexivity | exact Hadd].
    - change (set_goroutines _ _)
        with (running snap 0 (Ranging e (delivered client) (closes client))).
      eapply rtc_trans; [apply running_drains; lia|].
      apply running_takes_all, Hch. }
  split; [unfold sent_on, Channel; now rewrite Hch|].
  split.
  { unfold received_on, sent_on, Channel. rewrite Hch. cbn. apply take_ge. lia. }
  split.
  - intros Hopen w3 Hstep. rewrite Hopen in Hstep.
    inversion Hstep as [w i e0 client0 Hex Hg Hadd0
                       |w i e0 client0 err0 Hex Hg Hadd0
                       |w i e0 ev pending0 closing0 Hex Hg Hev
                       |w i e0 ev pending0 closing0 event c Hex Hg Hev Hc Hroom
                       |w i e0 Hex Hg
                       |w ch c Hex Hc Hlt]; subst;
      try (apply list_lookup_singleton_Some in Hg as [_ Hg]; discriminate Hg).
    apply list_lookup_singleton_Some in Hc as [_ <-]. cbn in Hlt. lia.
  - intros Hclosed. rewrite Hclosed. eexists.
    split; [eapply (step_feed_closed _ 0 e); reflexivity | reflexivity].
Qed.

End Notifier.

(** ** The scenarios, with the matcher of [regexp] for the patterns *)

(** The two package-level patterns, as [regexp.Compile] reads them. *)
Lemma reGroup_compiled : Compile "/(.*?)/" = inl reGroup.
Proof. reflexivity. Qed.

Lemma reSwarm_compiled :
  Compile ("(?m)(.*" +:+ ")\.(\d+)\.(.*" +:+ ")") = inl reSwarm.
Proof. reflexivity. Qed.

(** C2 as stated does not hold: [a.1.b.2.c] is of the form service, dot,
    replica number, dot, rest with the service [a] and the replica number
    [1], and it does not resolve to [a-1]: the pattern takes the last
    numeric segment. *)
Lemma buildContainerName_first_segment :
  "a.1.b.2.c" = "a" +:+ "." +:+ "1" +:+ "." +:+ "b.2.c" /\
  replica_number "1" /\
  buildContainerName ∅ "a.1.b.2.c" = "a.1.b-2" /\
  buildContainerName ∅ "a.1.b.2.c" <> "a" +:+ "-" +:+ "1".
Proof.
  split; [reflexivity|]. split; [split; [discriminate | reflexivity]|].
  assert (H : buildContainerName ∅ "a.1.b.2.c" = "a.1.b-2") by (vm_compute; reflexivity).
  split; [exact H|]. rewrite H. discriminate.
Qed.

(** C5 as stated does not hold: the event for the raw event of the
    scenario is not in the group "group". *)
Lemma activate_worker_stop_group :
  ~ exists event,
      activate_event MatchString (open_notifier (client_of [] [worker_stop])) worker_stop
      = Some event /\
      ContainerName event = "worker" /\ Group event = "group" /\ Status event = false.
Proof.
  intros (event & Hev & _ & Hgroup & _).
  vm_compute in Hev. injection Hev as <-. discriminate Hgroup.
Qed.

(** C6 as stated does not hold. For the container of the scenario, created
    at 1000, the time of the event is second 1 of the epoch and not second
    1000; and of 101 running containers that pass the policy only 100 get
    their event, the constructor waiting forever on the full channel. *)
Lemma snapshot_timestamp_and_capacity :
  (exists w1 e event,
     NewEventNotif Compile MatchString (client_of [web_container] []) [] [] "" "" World_init
     = (w1, Returns (Some e, None)) /\
     sent_on (Channel e) w1 = [event] /\
     TS event = time_Unix 1 0 /\
     TS event <> time_Unix (c_Created web_container) 0) /\
  (exists w1,
     NewEventNotif Compile MatchString (client_of (replicate 101 web_container) []) [] [] "" ""
       World_init = (w1, Blocks) /\
     length (List.filter
               (allowed_container MatchString (open_notifier (client_of [] [])))
               (replicate 101 web_container)) = 101 /\
     length (sent_on 0 w1) = 100).
Proof.
  split.
  - eexists. eexists. eexists. split; [vm_compute; reflexivity|].
    split; [vm_compute; reflexivity|]. split; [reflexivity|discriminate].
  - eexists. split; [vm_compute; reflexivity|]. split; vm_compute; reflexivity.
Qed.

(** The snapshot of the scenario's container: one event, named "web-2",
    without a group. *)
Lemma emitRunningContainers_snapshot_witness :
  exists w' events,
    emitRunningContainers MatchString (open_notifier (client_of [web_container] []))
      (listed World_init) = (w', Returns None) /\
    sent_on 0 w' = events /\
    List.map (fun event => (ContainerID event, ContainerName event, Group event, Status event))
      events = [("c1", "web-2", "", true)].
Proof.
  destruct (emitRunningContainers_snapshot MatchString
              (open_notifier (client_of [web_container] [])) (listed World_init)
              {| chan_cap := 100; chan_sent := []; chan_recvd := 0 |} [web_container])
    as (w' & events & Hrun & Hsent & Hall).
  - reflexivity.
  - reflexivity.
  - repeat constructor. discriminate.
  - vm_compute. lia.
  - exists w', events. split; [exact Hrun|]. split; [exact Hsent|].
    change (List.filter _ [web_container]) with [web_container] in Hall.
    inversion Hall as [|x event l l' (name0 & names & Hn & Hid & Hname & Hgroup & Hst) Hrest];
      subst. inversion Hrest; subst.
    injection Hn as <- <-. cbn [List.map]. rewrite Hid, Hname, Hgroup, Hst. reflexivity.
Defined.

(** An unbalanced parenthesis as include pattern: a [ConfigError], and no
    listing of containers. *)
Lemma NewEventNotif_bad_pattern_witness :
  NewEventNotif Compile MatchString (client_of [web_container] []) [] [] "(" "" World_init
  = (World_init,
     Returns (None, Some (errors_Wrap (errors_New "missing closing )")
                            "failed to compile includesPattern"))) /\
  listCalls (fst (NewEventNotif Compile MatchString (client_of [web_container] []) [] [] "(" ""
                    World_init)) = [].
Proof.
  destruct (NewEventNotif_bad_pattern Compile MatchString (client_of [web_container] [])
              [] [] "(" "" World_init) as (Hinc & _).
  destruct (Hinc (errors_New "missing closing )")) as [Hrun _]; [discriminate|reflexivity|].
  split; [exact Hrun | now rewrite Hrun].
Defined.

(** A client whose listing fails: no notifier, no listener. *)
Lemma NewEventNotif_listing_fails_witness :
  exists w',
    NewEventNotif Compile MatchString failing_client [] [] "" "" World_init
    = (w', Returns (None,
                    Some (errors_Wrap
                            (errors_Wrap (errors_New "cannot connect to the Docker daemon")
                               "can't list containers")
                            "failed to emit containers"))) /\
    goroutines w' = [].
Proof.
  destruct (NewEventNotif_listing_fails Compile MatchString failing_client [] [] "" ""
              World_init (errors_New "cannot connect to the Docker daemon") eq_refl)
    as (w' & err & Hrun & Hgo & [[(cause & [H|H]) Hw]|(-> & _)]).
  - subst w'. rewrite H in Hrun. vm_compute in Hrun. discriminate Hrun.
  - subst w'. rewrite H in Hrun. vm_compute in Hrun. discriminate Hrun.
  - exists w'. split; [exact Hrun | exact Hgo].
Defined.

(** A listing with a container without a name: the snapshot panics. *)
Lemma emitRunningContainers_names_witness :
  exists w',
    emitRunningContainers MatchString
      (open_notifier (client_of [web_container; nameless_container] []))
      (listed World_init)
    = (w', Panics "index out of range [0] with length 0").
Proof.
  destruct (emitRunningContainers_names MatchString
              (open_notifier (client_of [web_container; nameless_container] []))
              [web_container; nameless_container] eq_refl) as (_ & _ & Hpanic).
  apply (Hpanic (listed World_init) {| chan_cap := 100; chan_sent := []; chan_recvd := 0 |}
           [web_container] nameless_container []).
  - reflexivity.
  - reflexivity.
  - repeat constructor. discriminate.
  - reflexivity.
  - vm_compute. lia.
Defined.

(** The scenario's container and raw event: the snapshot comes first. *)
Lemma snapshot_before_live_witness :
  exists w1 e,
    NewEventNotif Compile MatchString (client_of [web_container] [worker_stop]) [] [] "" ""
      World_init = (w1, Returns (Some e, None)) /\
    sent_on (Channel e) w1 = snapshot MatchString e [web_container] /\
    forall w2, rtc (step MatchString) w1 w2 ->
      exists taken,
        taken `prefix_of` [worker_stop] /\
        sent_on (Channel e) w2
        = (snapshot MatchString e [web_container] ++ live MatchString e taken)%list.
Proof.
  pose proof (snapshot_before_live Compile MatchString
                (client_of [web_container] [worker_stop]) [] [] "" "") as H.
  destruct (NewEventNotif Compile MatchString (client_of [web_container] [worker_stop])
              [] [] "" "" World_init) as [w1 out] eqn:E.
  vm_compute in E. injection E as <- <-.
  destruct H as (containers & Hlist & _ & Hsent & _ & Hlive).
  injection Hlist as <-.
  eexists. eexists. split; [reflexivity|]. split; [exact Hsent|].
  intros w2 Hrun. destruct (Hlive w2 Hrun) as (taken & Hpre & Hs & _).
  exists taken. split; [exact Hpre | exact Hs].
Defined.

(** ** The further properties on the scenarios *)

(** A start of the scenario's container is named and grouped like the
    container in the snapshot. *)
Lemma live_matches_snapshot_witness :
  exists event,
    activate_event MatchString (open_notifier (client_of [] [])) web_start = Some event /\
    ContainerName event = "web-2" /\ Group event = "".
Proof.
  pose proof (live_matches_snapshot MatchString (open_notifier (client_of [] []))
                web_container "/web.2.xyz" [] web_start) as H.
  cbv zeta in H. specialize (H eq_refl eq_refl eq_refl eq_refl eq_refl eq_refl).
  assert (Hst : ev_Status web_start ∈ (upStatuses ++ downStatuses)%list)
    by (apply contains_elem_of; reflexivity).
  specialize (H Hst).
  change (snapshot_of MatchString (open_notifier (client_of [] [])) web_container)
    with (Some (started_event web_container "/web.2.xyz")) in H.
  destruct H as (event & Hev & Hname & Hgroup).
  exists event. split; [exact Hev|]. split; [exact Hname | exact Hgroup].
Defined.

(** A raw event without a name gives an event with the empty name. *)
Lemma activate_event_without_name_witness :
  exists event,
    activate_event MatchString (open_notifier (client_of [] [])) nameless_die = Some event /\
    ContainerName event = "".
Proof.
  pose proof (activate_event_without_name MatchString (open_notifier (client_of [] []))
                nameless_die) as H.
  cbv zeta in H.
  assert (Hst : ev_Status nameless_die ∈ (upStatuses ++ downStatuses)%list)
    by (apply contains_elem_of; reflexivity).
  destruct (H eq_refl Hst eq_refl) as [Hsome _].
  exact (Hsome eq_refl).
Defined.

(** The time of the event of the scenario's raw event. *)
Lemma live_timestamp_witness :
  exists event,
    activate_event MatchString (open_notifier (client_of [] [])) worker_stop = Some event /\
    (0 <= unixNsec (TS event) < 1000000000)%Z /\
    (unixSec (TS event) * 1000000000 + unixNsec (TS event)
     = 1700000 * 1000000000 + 1700000000123456789)%Z.
Proof.
  eexists. split; [vm_compute; reflexivity|].
  destruct (live_timestamp MatchString (open_notifier (client_of [] [])) worker_stop _ eq_refl)
    as (Hns & Hsum & _).
  split; [exact Hns | exact Hsum].
Defined.

(** The constructor on the scenario's container returns a notifier and no
    error. *)
Lemma NewEventNotif_result_witness :
  exists w' e,
    NewEventNotif Compile MatchString (client_of [web_container] []) ["worker"] [] "" ""
      World_init = (w', Returns (Some e, None)) /\
    excludes e = ["worker"] /\ eventsCh e = 0.
Proof.
  destruct (NewEventNotif Compile MatchString (client_of [web_container] []) ["worker"] [] "" ""
              World_init) as [w' out] eqn:E.
  vm_compute in E. injection E as <- <-.
  eexists. eexists. split; [reflexivity|].
  destruct (NewEventNotif_result Compile MatchString (client_of [web_container] [])
              ["worker"] [] "" "" World_init _ _ _ eq_refl)
    as [[Hn _]|(_ & e & He & _ & Hexc & _ & _ & _ & Hch)]; [discriminate Hn|].
  injection He as <-. split; [exact Hexc | exact Hch].
Defined.

(** The constructor on the scenario's container asks for the running
    containers once and starts one listener. *)
Lemma NewEventNotif_frame_witness :
  exists w' out,
    NewEventNotif Compile MatchString (client_of [web_container] []) [] [] "" "" World_init
    = (w', out) /\
    listCalls w' = [{| All := false |}] /\ length (goroutines w') = 1.
Proof.
  destruct (NewEventNotif Compile MatchString (client_of [web_container] []) [] [] "" ""
              World_init) as [w' out] eqn:E.
  exists w', out. split; [reflexivity|].
  destruct (NewEventNotif_frame Compile MatchString (client_of [web_container] [])
              [] [] "" "" World_init w' out E) as (_ & Hlist & _ & _ & Hgo).
  vm_compute in E. injection E as <- <-.
  destruct Hgo as [(e & _ & Hgo)|[Hno _]].
  - split; [reflexivity|]. rewrite Hgo. reflexivity.
  - exfalso. eapply Hno. reflexivity.
Defined.

(** 101 running containers: the constructor waits with 100 events sent. *)
Lemma NewEventNotif_blocks_witness :
  exists w',
    NewEventNotif Compile MatchString (client_of (replicate 101 web_container) []) [] [] "" ""
      World_init = (w', Blocks) /\
    length (sent_on 0 w') = 100 /\ goroutines w' = [].
Proof.
  destruct (NewEventNotif_blocks Compile MatchString
              (client_of (replicate 101 web_container) []) [] [] "" "" World_init None None
              (replicate 100 web_container) web_container [])
    as (w' & Hrun & _ & Hlen & Hgo).
  - reflexivity.
  - reflexivity.
  - reflexivity.
  - apply Forall_replicate. discriminate.
  - vm_compute. reflexivity.
  - reflexivity.
  - exists w'. split; [exact Hrun|]. split; [exact Hlen | exact Hgo].
Defined.

(** A listing with a container without a name between two others: the
    snapshot panics with the first event sent. *)
Lemma emitRunningContainers_partial_witness :
  exists w' events,
    emitRunningContainers MatchString
      (open_notifier (client_of [web_container; nameless_container; web_container] []))
      (listed World_init)
    = (w', Panics "index out of range [0] with length 0") /\
    sent_on 0 w' = events /\ length events = 1.
Proof.
  destruct (emitRunningContainers MatchString
              (open_notifier (client_of [web_container; nameless_container; web_container] []))
              (listed World_init)) as [w' out] eqn:E.
  destruct (emitRunningContainers_partial MatchString
              (open_notifier (client_of [web_container; nameless_container; web_container] []))
              (listed World_init) w'
              {| chan_cap := 100; chan_sent := []; chan_recvd := 0 |} out
              [web_container; nameless_container; web_container] eq_refl eq_refl E)
    as (events & _ & Hsent & _).
  vm_compute in E. injection E as <- <-.
  eexists. exists events. split; [reflexivity|]. split; [exact Hsent|].
  vm_compute in Hsent. now rewrite <- Hsent.
Defined.

(** A client that refuses the listener: the process ends. *)
Lemma listener_subscription_fails_witness :
  exists w1 w2,
    NewEventNotif Compile MatchString refusing_client [] [] "" "" World_init
    = (w1, Returns (Some (open_notifier refusing_client), None)) /\
    step MatchString w1 w2 /\ exited w2 = true.
Proof.
  destruct (NewEventNotif Compile MatchString refusing_client [] [] "" "" World_init)
    as [w1 out] eqn:E.
  vm_compute in E. injection E as <- <-.
  destruct (listener_subscription_fails Compile MatchString refusing_client [] [] "" ""
              _ (open_notifier refusing_client)
              (errors_New "cannot connect to the Docker daemon") eq_refl eq_refl)
    as ((w2 & Hstep & Hex) & _ & _).
  eexists. exists w2. split; [reflexivity|]. split; [exact Hstep | exact Hex].
Defined.

(** The scenario's container, then a stop of the worker and a start of the
    container: three events in all, all received. *)
Lemma listener_drains_witness :
  exists w1 w2,
    NewEventNotif Compile MatchString (client_of [web_container] [worker_stop; web_start])
      [] [] "" "" World_init
    = (w1, Returns (Some (open_notifier (client_of [web_container] [worker_stop; web_start])),
                    None)) /\
    rtc (step MatchString) w1 w2 /\
    List.map ContainerName (received_on 0 w2) = ["web-2"; "worker"; "web-2"] /\
    List.map Status (received_on 0 w2) = [true; false; true].
Proof.
  destruct (NewEventNotif Compile MatchString (client_of [web_container] [worker_stop; web_start])
              [] [] "" "" World_init) as [w1 out] eqn:E.
  vm_compute in E. injection E as <- <-.
  destruct (listener_drains Compile MatchString (client_of [web_container] [worker_stop; web_start])
              [] [] "" "" _
              (open_notifier (client_of [web_container] [worker_stop; web_start]))
              eq_refl eq_refl)
    as (containers & w2 & Hlist & Hrun & Hsent & Hrecv & _).
  injection Hlist as <-.
  eexists. exists w2. split; [reflexivity|]. split; [exact Hrun|].
  change (Channel (open_notifier (client_of [web_container] [worker_stop; web_start])))
    with 0 in *.
  rewrite Hrecv, Hsent. split; vm_compute; reflexivity.
Defined.
